(** * 3d-model-tester: character animation and movement logic of [src/main.js]

    A shallow embedding of the game logic of [src/main.js]: the two animation
    classifiers (the loader callbacks of the built-in model and
    [processModelAnimations] for an uploaded model), [setAnimation],
    [performAttack] with its [setTimeout] callback, [performJump],
    [updatePlayer], [updateEnemy], the event handlers that call them, and
    the test and the listeners of the upload box ([isValidModelFile]).

    Conventions of the embedding:
    - JavaScript numbers are idealised as real numbers ([R]); rounding, NaN,
      infinities and signed zeros are outside the model.
    - Clip and file names are ASCII strings; [toUpperCase] acts on the
      letters a-z and [toLowerCase] on the letters A-Z.
    - The module-level variables of [main.js] are the fields of [World]; the
      variables that belong to one character are grouped as the code's own
      [info] objects group them ([state], [animations], [map], [mixer]).
    - Calls into three.js that only affect playback are recorded, in order,
      in the [playback] log; rendering, the camera and [debugLog] are left out.
    - A method call on [undefined] is the only way the modelled code can
      raise; [Res] keeps that outcome apart from a normal return.
    - An [animations] object is a finite map from names to actions. For the
      five role names IDLE, WALK, RUN, JUMP and ATTACK, the only names the
      program passes, a lookup is the property read of the code; names that
      a JavaScript object inherits from [Object.prototype] are outside the
      model. *)

From Stdlib Require Import Reals Lra String Ascii List Bool.
From stdpp Require Import gmap strings.

Local Open Scope R_scope.
Local Open Scope string_scope.

(** ** Numbers *)

#[global] Instance Rlt_decision : RelDecision Rlt := Rlt_dec.
#[global] Instance Rle_decision : RelDecision Rle := Rle_dec.
#[global] Instance Rgt_decision : RelDecision Rgt := Rgt_dec.
#[global] Instance Rge_decision : RelDecision Rge := Rge_dec.
#[global] Instance Req_decision : EqDecision R := Req_dec_T.

(** [Math.atan2(y, x)] on reals, from [atan]. *)
Definition atan2 (y x : R) : R :=
  if decide (0 < x) then atan (y / x)
  else if decide (x < 0) then
    (if decide (0 <= y) then atan (y / x) + PI else atan (y / x) - PI)
  else if decide (0 < y) then PI / 2
  else if decide (y < 0) then - (PI / 2)
  else 0.

(** [THREE.Vector3]. *)
Record Vector3 : Type := mkVector3 { x : R; y : R; z : R }.

Module THREE.

Definition subVectors (a b : Vector3) : Vector3 :=
  {| x := x a - x b; y := y a - y b; z := z a - z b |}.

Definition length (v : Vector3) : R :=
  sqrt (x v * x v + y v * y v + z v * z v).

(** [Vector3.normalize] is [divideScalar(length() || 1)]. *)
Definition normalize (v : Vector3) : Vector3 :=
  let l := if decide (length v = 0) then 1 else length v in
  {| x := x v / l; y := y v / l; z := z v / l |}.

End THREE.

(** ** Strings *)

Definition upper_ascii (c : ascii) : ascii :=
  let n := nat_of_ascii c in
  if (97 <=? n)%nat && (n <=? 122)%nat then ascii_of_nat (n - 32) else c.

Fixpoint toUpperCase (s : string) : string :=
  match s with
  | EmptyString => EmptyString
  | String c s' => String (upper_ascii c) (toUpperCase s')
  end.

(** [s.includes(sub)]: [sub] occurs in [s] at some offset. *)
Fixpoint includes (s sub : string) : bool :=
  String.prefix sub s ||
  match s with
  | EmptyString => false
  | String _ s' => includes s' sub
  end.

(** ** Outcomes *)

Inductive Res (A : Type) : Type :=
  | Returned (a : A)
  | TypeError.
Arguments Returned {A} a.
Arguments TypeError {A}.

#[global] Instance Res_ret : MRet Res := fun A a => Returned a.
#[global] Instance Res_bind : MBind Res := fun A B k r =>
  match r with
  | Returned a => k a
  | TypeError => TypeError
  end.

(** Reading a property of [o] in order to call it: raises on [undefined]. *)
Definition member {A : Type} (o : option A) : Res A :=
  match o with
  | Some a => Returned a
  | None => TypeError
  end.

(** JavaScript truthiness of an object-or-undefined (or object-or-null). *)
Definition truthy {A : Type} (o : option A) : bool :=
  match o with Some _ => true | None => false end.

(** ** Data model *)

(** An animation clip of a loaded glTF: its name and its duration in
    seconds (the tracks are not read by the logic). *)
Record Clip : Type := mkClip { name : string; duration : R }.

(** An [AnimationMixer] is known by the order of its creation. *)
Definition Mixer : Type := nat.

(** The [AnimationAction] that [mixer.clipAction(clip)] returns. *)
Record Action : Type := clipAction { action_mixer : Mixer; action_clip : Clip }.

Inductive LoopMode : Type := LoopOnce | LoopRepeat.

(** The three.js playback calls the logic makes. *)
Inductive PlaybackCall : Type :=
  | stopAllAction (m : Mixer)
  | uncacheRoot (m : Mixer)
  | update (m : Mixer) (deltaTime : R)
  | setLoop (a : Action) (mode : LoopMode)
  | clampWhenFinished (a : Action)
  | setEffectiveWeight (a : Action) (weight : R)
  | reset (a : Action)
  | play (a : Action).

(** One entry [{ clip, duration }] of [animationMap.player] or
    [animationMap.enemy]; [clip] is [null] until a clip is bound. *)
Record MapEntry : Type := mkMapEntry { clip : option Clip; entry_duration : R }.

Definition emptyEntry : MapEntry := {| clip := None; entry_duration := 0 |}.

Record AnimationMap : Type := mkAnimationMap {
  IDLE : MapEntry; WALK : MapEntry; RUN : MapEntry;
  JUMP : MapEntry; ATTACK : MapEntry
}.

Definition emptyAnimationMap : AnimationMap :=
  {| IDLE := emptyEntry; WALK := emptyEntry; RUN := emptyEntry;
     JUMP := emptyEntry; ATTACK := emptyEntry |}.

(** [playerState] and [enemyState] as one record type. [rotation] is an
    Euler angle triple of which only [y] is ever non-zero. The fields an
    object literal of the source lacks ([runSpeed], [rotationSpeed],
    [isJumping], [jumpHeight], [jumpSpeed] for the enemy; [attackDistance],
    [followDistance], [attackCooldown] for the player) are never read for
    that character by any call the program makes. *)
Record CharacterState : Type := mkCharacterState {
  position : Vector3;
  rotation_y : R;
  velocity : Vector3;
  currentAnimation : string;
  moveSpeed : R;
  runSpeed : R;
  rotationSpeed : R;
  isAttacking : bool;
  isJumping : bool;
  jumpHeight : R;
  jumpSpeed : R;
  attackDistance : R;
  followDistance : R;
  attackCooldown : R
}.

(** The scene node of a loaded model: the logic reads and writes its
    position and its rotation about the vertical axis. *)
Record Model : Type := mkModel { model_position : Vector3; model_rotation_y : R }.

(** The [keys] object. *)
Record Keys : Type := mkKeys {
  key_w : bool; key_a : bool; key_s : bool; key_d : bool;
  key_space : bool; key_shift : bool; key_f : bool
}.

(** Objects created by [{}] for [playerAnimations] and [enemyAnimations]
    live in a store and are named by references: [loadCustomModel] replaces
    them while a pending timeout may still hold the old one. *)
Definition ref : Type := nat.

Inductive Character : Type := Player | Enemy.

(** The variables of one character, as the [info] objects of the source
    group them: [state] is [playerState]/[enemyState], [animations] the
    object [playerAnimations]/[enemyAnimations] refers to, [animationMap]
    is [animationMap.player]/[animationMap.enemy], [mixer] is
    [playerMixer]/[enemyMixer] and [model] is [playerModel]/[enemyModel]. *)
Record Info : Type := mkInfo {
  state : CharacterState;
  animations : ref;
  animationMap : AnimationMap;
  mixer : option Mixer;
  model : option Model
}.

(** A pending [setTimeout] of [performAttack]: the closure keeps the
    character and the [animations] object of its [info]; [delay] is in
    milliseconds. *)
Record Timer : Type := mkTimer {
  timer_character : Character;
  timer_animations : ref;
  delay : R
}.

Record World : Type := mkWorld {
  keys : Keys;
  player : Info;
  enemy : Info;
  objects : gmap ref (gmap string Action);
  timeouts : list Timer;
  playback : list PlaybackCall;
  fresh : nat
}.

(** *** Field updates *)

Definition set_position (v : Vector3) (r : CharacterState) : CharacterState :=
  {| position := v; rotation_y := rotation_y r; velocity := velocity r; currentAnimation := currentAnimation r; moveSpeed := moveSpeed r; runSpeed := runSpeed r; rotationSpeed := rotationSpeed r; isAttacking := isAttacking r; isJumping := isJumping r; jumpHeight := jumpHeight r; jumpSpeed := jumpSpeed r; attackDistance := attackDistance r; followDistance := followDistance r; attackCooldown := attackCooldown r |}.

Definition set_rotation_y (v : R) (r : CharacterState) : CharacterState :=
  {| position := position r; rotation_y := v; velocity := velocity r; currentAnimation := currentAnimation r; moveSpeed := moveSpeed r; runSpeed := runSpeed r; rotationSpeed := rotationSpeed r; isAttacking := isAttacking r; isJumping := isJumping r; jumpHeight := jumpHeight r; jumpSpeed := jumpSpeed r; attackDistance := attackDistance r; followDistance := followDistance r; attackCooldown := attackCooldown r |}.

Definition set_velocity (v : Vector3) (r : CharacterState) : CharacterState :=
  {| position := position r; rotation_y := rotation_y r; velocity := v; currentAnimation := currentAnimation r; moveSpeed := moveSpeed r; runSpeed := runSpeed r; rotationSpeed := rotationSpeed r; isAttacking := isAttacking r; isJumping := isJumping r; jumpHeight := jumpHeight r; jumpSpeed := jumpSpeed r; attackDistance := attackDistance r; followDistance := followDistance r; attackCooldown := attackCooldown r |}.

Definition set_currentAnimation (v : string) (r : CharacterState) : CharacterState :=
  {| position := position r; rotation_y := rotation_y r; velocity := velocity r; currentAnimation := v; moveSpeed := moveSpeed r; runSpeed := runSpeed r; rotationSpeed := rotationSpeed r; isAttacking := isAttacking r; isJumping := isJumping r; jumpHeight := jumpHeight r; jumpSpeed := jumpSpeed r; attackDistance := attackDistance r; followDistance := followDistance r; attackCooldown := attackCooldown r |}.

Definition set_isAttacking (v : bool) (r : CharacterState) : CharacterState :=
  {| position := position r; rotation_y := rotation_y r; velocity := velocity r; currentAnimation := currentAnimation r; moveSpeed := moveSpeed r; runSpeed := runSpeed r; rotationSpeed := rotationSpeed r; isAttacking := v; isJumping := isJumping r; jumpHeight := jumpHeight r; jumpSpeed := jumpSpeed r; attackDistance := attackDistance r; followDistance := followDistance r; attackCooldown := attackCooldown r |}.

Definition set_isJumping (v : bool) (r : CharacterState) : CharacterState :=
  {| position := position r; rotation_y := rotation_y r; velocity := velocity r; currentAnimation := currentAnimation r; moveSpeed := moveSpeed r; runSpeed := runSpeed r; rotationSpeed := rotationSpeed r; isAttacking := isAttacking r; isJumping := v; jumpHeight := jumpHeight r; jumpSpeed := jumpSpeed r; attackDistance := attackDistance r; followDistance := followDistance r; attackCooldown := attackCooldown r |}.

Definition set_attackCooldown (v : R) (r : CharacterState) : CharacterState :=
  {| position := position r; rotation_y := rotation_y r; velocity := velocity r; currentAnimation := currentAnimation r; moveSpeed := moveSpeed r; runSpeed := runSpeed r; rotationSpeed := rotationSpeed r; isAttacking := isAttacking r; isJumping := isJumping r; jumpHeight := jumpHeight r; jumpSpeed := jumpSpeed r; attackDistance := attackDistance r; followDistance := followDistance r; attackCooldown := v |}.

Definition set_IDLE (v : MapEntry) (r : AnimationMap) : AnimationMap :=
  {| IDLE := v; WALK := WALK r; RUN := RUN r; JUMP := JUMP r; ATTACK := ATTACK r |}.

Definition set_WALK (v : MapEntry) (r : AnimationMap) : AnimationMap :=
  {| IDLE := IDLE r; WALK := v; RUN := RUN r; JUMP := JUMP r; ATTACK := ATTACK r |}.

Definition set_RUN (v : MapEntry) (r : AnimationMap) : AnimationMap :=
  {| IDLE := IDLE r; WALK := WALK r; RUN := v; JUMP := JUMP r; ATTACK := ATTACK r |}.

Definition set_JUMP (v : MapEntry) (r : AnimationMap) : AnimationMap :=
  {| IDLE := IDLE r; WALK := WALK r; RUN := RUN r; JUMP := v; ATTACK := ATTACK r |}.

Definition set_ATTACK (v : MapEntry) (r : AnimationMap) : AnimationMap :=
  {| IDLE := IDLE r; WALK := WALK r; RUN := RUN r; JUMP := JUMP r; ATTACK := v |}.

Definition set_state (v : CharacterState) (r : Info) : Info :=
  {| state := v; animations := animations r; animationMap := animationMap r; mixer := mixer r; model := model r |}.

Definition set_animations (v : ref) (r : Info) : Info :=
  {| state := state r; animations := v; animationMap := animationMap r; mixer := mixer r; model := model r |}.

Definition set_animationMap (v : AnimationMap) (r : Info) : Info :=
  {| state := state r; animations := animations r; animationMap := v; mixer := mixer r; model := model r |}.

Definition set_mixer (v : option Mixer) (r : Info) : Info :=
  {| state := state r; animations := animations r; animationMap := animationMap r; mixer := v; model := model r |}.

Definition set_model (v : option Model) (r : Info) : Info :=
  {| state := state r; animations := animations r; animationMap := animationMap r; mixer := mixer r; model := v |}.

Definition set_keys (v : Keys) (r : World) : World :=
  {| keys := v; player := player r; enemy := enemy r; objects := objects r; timeouts := timeouts r; playback := playback r; fresh := fresh r |}.

Definition set_player (v : Info) (r : World) : World :=
  {| keys := keys r; player := v; enemy := enemy r; objects := objects r; timeouts := timeouts r; playback := playback r; fresh := fresh r |}.

Definition set_enemy (v : Info) (r : World) : World :=
  {| keys := keys r; player := player r; enemy := v; objects := objects r; timeouts := timeouts r; playback := playback r; fresh := fresh r |}.

Definition set_objects (v : gmap ref (gmap string Action)) (r : World) : World :=
  {| keys := keys r; player := player r; enemy := enemy r; objects := v; timeouts := timeouts r; playback := playback r; fresh := fresh r |}.

Definition set_timeouts (v : list Timer) (r : World) : World :=
  {| keys := keys r; player := player r; enemy := enemy r; objects := objects r; timeouts := v; playback := playback r; fresh := fresh r |}.

Definition set_playback (v : list PlaybackCall) (r : World) : World :=
  {| keys := keys r; player := player r; enemy := enemy r; objects := objects r; timeouts := timeouts r; playback := v; fresh := fresh r |}.

Definition set_fresh (v : nat) (r : World) : World :=
  {| keys := keys r; player := player r; enemy := enemy r; objects := objects r; timeouts := timeouts r; playback := playback r; fresh := v |}.

Definition set_key_w (v : bool) (r : Keys) : Keys :=
  {| key_w := v; key_a := key_a r; key_s := key_s r; key_d := key_d r; key_space := key_space r; key_shift := key_shift r; key_f := key_f r |}.

Definition set_key_a (v : bool) (r : Keys) : Keys :=
  {| key_w := key_w r; key_a := v; key_s := key_s r; key_d := key_d r; key_space := key_space r; key_shift := key_shift r; key_f := key_f r |}.

Definition set_key_s (v : bool) (r : Keys) : Keys :=
  {| key_w := key_w r; key_a := key_a r; key_s := v; key_d := key_d r; key_space := key_space r; key_shift := key_shift r; key_f := key_f r |}.

Definition set_key_d (v : bool) (r : Keys) : Keys :=
  {| key_w := key_w r; key_a := key_a r; key_s := key_s r; key_d := v; key_space := key_space r; key_shift := key_shift r; key_f := key_f r |}.

Definition set_key_space (v : bool) (r : Keys) : Keys :=
  {| key_w := key_w r; key_a := key_a r; key_s := key_s r; key_d := key_d r; key_space := v; key_shift := key_shift r; key_f := key_f r |}.

Definition set_key_shift (v : bool) (r : Keys) : Keys :=
  {| key_w := key_w r; key_a := key_a r; key_s := key_s r; key_d := key_d r; key_space := key_space r; key_shift := v; key_f := key_f r |}.

Definition set_key_f (v : bool) (r : Keys) : Keys :=
  {| key_w := key_w r; key_a := key_a r; key_s := key_s r; key_d := key_d r; key_space := key_space r; key_shift := key_shift r; key_f := v |}.

(** ** Access to the variables of a character *)

Definition info (character : Character) (w : World) : Info :=
  match character with Player => player w | Enemy => enemy w end.

Definition set_info (character : Character) (i : Info) (w : World) : World :=
  match character with Player => set_player i w | Enemy => set_enemy i w end.

Definition update_state (character : Character)
    (f : CharacterState -> CharacterState) (w : World) : World :=
  set_info character (set_state (f (state (info character w))) (info character w)) w.

Definition update_model (character : Character) (f : Model -> Model) (w : World) : World :=
  set_info character (set_model (f <$> model (info character w)) (info character w)) w.

Definition update_animationMap (character : Character)
    (f : AnimationMap -> AnimationMap) (w : World) : World :=
  set_info character
    (set_animationMap (f (animationMap (info character w))) (info character w)) w.

(** The object [playerAnimations]/[enemyAnimations] currently refers to. *)
Definition animationsOf (character : Character) (w : World) : gmap string Action :=
  objects w !!! animations (info character w).

(** [info.animations[role] = action] on the current object of a character. *)
Definition set_animation (character : Character) (role : string) (a : Action)
    (w : World) : World :=
  set_objects
    (<[animations (info character w) := <[role := a]> (animationsOf character w)]> (objects w)) w.

Definition log (p : PlaybackCall) (w : World) : World :=
  set_playback (p :: playback w) w.

Definition playerState (w : World) : CharacterState := state (player w).
Definition enemyState (w : World) : CharacterState := state (enemy w).
Definition playerModel (w : World) : option Model := model (player w).
Definition enemyModel (w : World) : option Model := model (enemy w).
Definition playerAnimations (w : World) : gmap string Action := animationsOf Player w.
Definition enemyAnimations (w : World) : gmap string Action := animationsOf Enemy w.

(** ** Animation handling *)

(** [setAnimation(character, animationName)], lines 416-468. *)
Definition setAnimation (character : Character) (animationName : string)
    (w : World) : Res World :=
  let i := info character w in
  if negb (truthy (animationsOf character w !! animationName)) then Returned w
  else if String.eqb (currentAnimation (state i)) animationName then Returned w
  else
    let w :=
      match mixer i with
      | Some m => log (stopAllAction m) w
      | None => w
      end in
    a ← member (animationsOf character w !! animationName);
    let w :=
      if String.eqb animationName "ATTACK" || String.eqb animationName "JUMP"
      then log (clampWhenFinished a) (log (setLoop a LoopOnce) w)
      else log (setLoop a LoopRepeat) w in
    let w := log (setEffectiveWeight a 1) w in
    let w := log (reset a) w in
    let w := log (play a) w in
    Returned (update_state character (set_currentAnimation animationName) w).

(** The callback [performAttack] hands to [setTimeout], lines 491-497. *)
Definition attackTimeout (t : Timer) (w : World) : Res World :=
  let w := update_state (timer_character t) (set_isAttacking false) w in
  if truthy ((objects w !!! timer_animations t) !! "IDLE")
  then setAnimation (timer_character t) "IDLE" w
  else Returned w.

(** [performAttack(character)], lines 470-498. *)
Definition performAttack (character : Character) (w : World) : Res World :=
  let i := info character w in
  if negb (truthy (animationsOf character w !! "ATTACK")) then Returned w
  else
    let w := update_state character (set_isAttacking true) w in
    w ← setAnimation character "ATTACK" w;
    let attackDuration :=
      if decide (entry_duration (ATTACK (animationMap i)) > 0)
      then entry_duration (ATTACK (animationMap i)) else 1 in
    Returned (set_timeouts
      (timeouts w ++ [ {| timer_character := character;
                          timer_animations := animations i;
                          delay := attackDuration * 1000 |} ]) w).

(** [performJump(character)], lines 1049-1077. The only call passes
    ['player']. *)
Definition performJump (character : Character) (w : World) : Res World :=
  let i := info character w in
  if isJumping (state i) then Returned w
  else
    let w := update_state character (set_isJumping true) w in
    let w := update_state character (fun s =>
      set_velocity {| x := x (velocity s); y := jumpSpeed s; z := z (velocity s) |} s) w in
    if truthy (animationsOf character w !! "JUMP")
    then setAnimation character "JUMP" w
    else Returned w.

(** ** Player movement *)

(** The animation picked for the player from its movement flags: lines
    537-548 after a landing and lines 598-606 at the end of a tick. *)
Definition movementAnimation (moving running : bool) (w : World) : Res World :=
  if moving then
    if running && truthy (playerAnimations w !! "RUN") then setAnimation Player "RUN" w
    else if truthy (playerAnimations w !! "WALK") then setAnimation Player "WALK" w
    else Returned w
  else if truthy (playerAnimations w !! "IDLE") then setAnimation Player "IDLE" w
  else Returned w.

(** Rotation with the A and D keys, lines 510-519. *)
Definition rotatePlayer (deltaTime : R) (w : World) : Res World :=
  let turn (d : R) (w : World) : World :=
    update_model Player (fun m =>
      {| model_position := model_position m;
         model_rotation_y := model_rotation_y m + d |}) w in
  let w := if key_a (keys w)
           then turn (rotationSpeed (playerState w) * deltaTime) w else w in
  let w := if key_d (keys w)
           then turn (- (rotationSpeed (playerState w) * deltaTime)) w else w in
  m ← member (playerModel w);
  Returned (update_state Player (set_rotation_y (model_rotation_y m)) w).

(** Vertical movement while jumping, lines 522-553. The result carries the
    local variables [moving] and [running]. *)
Definition jumpPlayer (deltaTime : R) (w : World) : Res (World * (bool * bool)) :=
  if isJumping (playerState w) then
    let w := update_state Player (fun s =>
      set_velocity {| x := x (velocity s);
                      y := y (velocity s) - 9.8 * deltaTime;
                      z := z (velocity s) |} s) w in
    let w := update_state Player (fun s =>
      set_position {| x := x (position s);
                      y := y (position s) + y (velocity s) * deltaTime;
                      z := z (position s) |} s) w in
    '(w, flags) ←
      (if decide (y (position (playerState w)) <= 0) then
         let w := update_state Player (fun s =>
           set_position {| x := x (position s); y := 0; z := z (position s) |} s) w in
         let w := update_state Player (fun s =>
           set_velocity {| x := x (velocity s); y := 0; z := z (velocity s) |} s) w in
         let w := update_state Player (set_isJumping false) w in
         if key_w (keys w) || key_s (keys w) then
           w ← movementAnimation true (key_shift (keys w)) w;
           Returned (w, (true, key_shift (keys w)))
         else
           w ← movementAnimation false false w;
           Returned (w, (false, false))
       else Returned (w, (false, false)));
    _ ← member (playerModel w);
    Returned
      (update_model Player (fun m =>
         {| model_position :=
              {| x := x (model_position m);
                 y := y (position (playerState w));
                 z := z (model_position m) |};
            model_rotation_y := model_rotation_y m |}) w,
       flags)
  else Returned (w, (false, false)).

Definition mapBoundary : R := 25.
Definition treeRadius : R := 0.7.

(** The test both characters apply to a candidate position, lines 583-588
    and 669-674. *)
Definition positionAccepted (newPosX newPosZ : R) : bool :=
  let distanceToTree := sqrt (newPosX * newPosX + newPosZ * newPosZ) in
  bool_decide (distanceToTree > treeRadius) &&
  bool_decide (Rabs newPosX < mapBoundary) &&
  bool_decide (Rabs newPosZ < mapBoundary).

(** Movement with the W and S keys, lines 556-594. *)
Definition movePlayer (deltaTime : R) (flags : bool * bool) (w : World)
    : Res (World * (bool * bool)) :=
  if key_w (keys w) || key_s (keys w) then
    let running := key_shift (keys w) in
    let direction : R := if key_w (keys w) then -1 else 1 in
    m ← member (playerModel w);
    let forwardX := - sin (model_rotation_y m) in
    let forwardZ := - cos (model_rotation_y m) in
    let currentSpeed :=
      if running then runSpeed (playerState w) else moveSpeed (playerState w) in
    let w := update_state Player (fun s =>
      set_velocity {| x := forwardX * currentSpeed * direction;
                      y := y (velocity s);
                      z := forwardZ * currentSpeed * direction |} s) w in
    let s := playerState w in
    let newPosX := x (position s) + x (velocity s) * deltaTime in
    let newPosZ := z (position s) + z (velocity s) * deltaTime in
    if positionAccepted newPosX newPosZ then
      let w := update_state Player (fun s =>
        set_position {| x := newPosX; y := y (position s); z := newPosZ |} s) w in
      let w := update_model Player (fun m =>
        {| model_position :=
             {| x := newPosX; y := y (model_position m); z := newPosZ |};
           model_rotation_y := model_rotation_y m |}) w in
      Returned (w, (true, running))
    else Returned (w, (true, running))
  else Returned (w, flags).

(** [updatePlayer(deltaTime)], lines 501-617, without the camera. *)
Definition updatePlayer (deltaTime : R) (w : World) : Res World :=
  if negb (truthy (playerModel w)) then Returned w
  else if isAttacking (playerState w) && negb (isJumping (playerState w))
  then Returned w
  else
    w ← rotatePlayer deltaTime w;
    '(w, flags) ← jumpPlayer deltaTime w;
    '(w, (moving, running)) ← movePlayer deltaTime flags w;
    if negb (isJumping (playerState w)) && negb (isAttacking (playerState w))
    then movementAnimation moving running w
    else Returned w.

(** ** Enemy AI *)

(** The two boundary corrections of lines 646-647. *)
Definition wrapAngle (angleDiff : R) : R :=
  let angleDiff := if decide (angleDiff > PI) then angleDiff - PI * 2 else angleDiff in
  if decide (angleDiff < - PI) then angleDiff + PI * 2 else angleDiff.

(** The new heading of lines 642-649. *)
Definition smoothRotate (currentAngle targetAngle deltaTime : R) : R :=
  let angleDiff := wrapAngle (targetAngle - currentAngle) in
  currentAngle + angleDiff * Rmin (3 * deltaTime) 1.

(** Following the player, lines 635-680; [direction] is the vector from the
    enemy to the player. *)
Definition followPlayer (deltaTime : R) (direction : Vector3) (w : World) : Res World :=
  let direction := THREE.normalize direction in
  let targetAngle := atan2 (x direction) (z direction) in
  m ← member (enemyModel w);
  let currentAngle := model_rotation_y m in
  let w := update_model Enemy (fun m =>
    {| model_position := model_position m;
       model_rotation_y := smoothRotate currentAngle targetAngle deltaTime |}) w in
  m ← member (enemyModel w);
  let w := update_state Enemy (set_rotation_y (model_rotation_y m)) w in
  let forwardX := - sin (model_rotation_y m) in
  let forwardZ := - cos (model_rotation_y m) in
  let w := update_state Enemy (fun s =>
    set_velocity {| x := forwardX * moveSpeed s * -1;
                    y := y (velocity s);
                    z := forwardZ * moveSpeed s * -1 |} s) w in
  let s := enemyState w in
  let newPosX := x (position s) + x (velocity s) * deltaTime in
  let newPosZ := z (position s) + z (velocity s) * deltaTime in
  let w :=
    if positionAccepted newPosX newPosZ then
      let w := update_state Enemy (fun s =>
        set_position {| x := newPosX; y := y (position s); z := newPosZ |} s) w in
      update_model Enemy (fun m =>
        {| model_position := position (enemyState w);
           model_rotation_y := model_rotation_y m |}) w
    else w in
  setAnimation Enemy "WALK" w.

(** [updateEnemy(deltaTime)], lines 620-690. *)
Definition updateEnemy (deltaTime : R) (w : World) : Res World :=
  if negb (truthy (enemyModel w)) || negb (truthy (playerModel w))
     || isAttacking (enemyState w)
  then Returned w
  else
    let direction := THREE.subVectors (position (playerState w)) (position (enemyState w)) in
    let distance := THREE.length direction in
    w ←
      (if decide (distance < attackDistance (enemyState w)) then
         if decide (attackCooldown (enemyState w) <= 0) then
           w ← performAttack Enemy w;
           Returned (update_state Enemy (set_attackCooldown 2) w)
         else Returned w
       else if decide (distance < followDistance (enemyState w)) then
         followPlayer deltaTime direction w
       else setAnimation Enemy "IDLE" w);
    if decide (attackCooldown (enemyState w) > 0) then
      Returned (update_state Enemy (fun s =>
        set_attackCooldown (attackCooldown s - deltaTime) s) w)
    else Returned w.

(** ** Input *)

(** The values of [e.key.toLowerCase()] the handlers distinguish. *)
Inductive Key : Type :=
  | KeyW | KeyA | KeyS | KeyD | KeySpace | KeyShift | KeyF | KeyOther.

Definition update_keys (f : Keys -> Keys) (w : World) : World :=
  set_keys (f (keys w)) w.

(** The [keydown] listener, lines 356-377. *)
Definition keydown (k : Key) (w : World) : Res World :=
  match k with
  | KeyW => Returned (update_keys (set_key_w true) w)
  | KeyA => Returned (update_keys (set_key_a true) w)
  | KeyS => Returned (update_keys (set_key_s true) w)
  | KeyD => Returned (update_keys (set_key_d true) w)
  | KeySpace =>
      let w := update_keys (set_key_space true) w in
      if negb (isJumping (playerState w)) && negb (isAttacking (playerState w))
      then performJump Player w else Returned w
  | KeyShift => Returned (update_keys (set_key_shift true) w)
  | KeyF =>
      let w := update_keys (set_key_f true) w in
      if negb (isAttacking (playerState w)) && negb (isJumping (playerState w))
      then performAttack Player w else Returned w
  | KeyOther => Returned w
  end.

(** The [keyup] listener, lines 379-389. *)
Definition keyup (k : Key) (w : World) : Res World :=
  match k with
  | KeyW => Returned (update_keys (set_key_w false) w)
  | KeyA => Returned (update_keys (set_key_a false) w)
  | KeyS => Returned (update_keys (set_key_s false) w)
  | KeyD => Returned (update_keys (set_key_d false) w)
  | KeySpace => Returned (update_keys (set_key_space false) w)
  | KeyShift => Returned (update_keys (set_key_shift false) w)
  | KeyF => Returned (update_keys (set_key_f false) w)
  | KeyOther => Returned w
  end.

(** The [click] listener, lines 392-396. *)
Definition click (w : World) : Res World :=
  if negb (isAttacking (playerState w)) && negb (isJumping (playerState w))
  then performAttack Player w else Returned w.

(** [animate()], lines 694-711, without the rendering. *)
Definition animate (deltaTime : R) (w : World) : Res World :=
  let w := match mixer (player w) with
           | Some m => log (update m deltaTime) w | None => w end in
  let w := match mixer (enemy w) with
           | Some m => log (update m deltaTime) w | None => w end in
  w ← updatePlayer deltaTime w;
  updateEnemy deltaTime w.

(** ** Animation classification *)

Definition bound (c : Clip) : MapEntry :=
  {| clip := Some c; entry_duration := duration c |}.

(** The body of the [forEach] of the built-in model's loader callbacks,
    lines 205-236 (player) and 290-311 (enemy); [m] is the mixer created
    just before the loop. *)
Definition builtinClip (character : Character) (m : Mixer) (w : World) (c : Clip) : World :=
  let NAME := toUpperCase (name c) in
  let map := animationMap (info character w) in
  if (includes NAME "IDLE" || includes NAME "STOPPED") && negb (truthy (clip (IDLE map)))
  then set_animation character "IDLE" (clipAction m c)
         (update_animationMap character (set_IDLE (bound c)) w)
  else if (includes NAME "ATTACK" || includes NAME "SHOOT" || includes NAME "FIRE")
          && negb (truthy (clip (ATTACK map)))
  then set_animation character "ATTACK" (clipAction m c)
         (update_animationMap character (set_ATTACK (bound c)) w)
  else if (includes NAME "WALK" || includes NAME "RUN") && negb (truthy (clip (WALK map)))
  then set_animation character "WALK" (clipAction m c)
         (update_animationMap character (set_WALK (bound c)) w)
  else w.

(** The success callbacks of the built-in model, lines 147-255 and 258-317:
    the model is placed at the character's position, a mixer is created,
    the clips are classified and IDLE is played when it was found. *)
Definition builtinLoaded (character : Character) (animations : list Clip)
    (w : World) : Res World :=
  let s := state (info character w) in
  let w := set_info character
    (set_model (Some {| model_position := position s;
                        model_rotation_y := rotation_y s |}) (info character w)) w in
  let m := fresh w in
  let w := set_fresh (S m) w in
  let w := set_info character (set_mixer (Some m) (info character w)) w in
  let w := foldl (builtinClip character m) w animations in
  match animationsOf character w !! "IDLE" with
  | Some a => Returned (log (play a) w)
  | None => Returned w
  end.

(** The body of the [forEach] of [processModelAnimations], lines 961-1021;
    [info_mixer] is the [mixer] field of the function's [info] object and
    the boolean is [hasFoundValidAnimation]. *)
Definition processClip (character : Character) (info_mixer : option Mixer)
    (acc : World * bool) (c : Clip) : Res (World * bool) :=
  let '(w, hasFoundValidAnimation) := acc in
  let NAME := toUpperCase (name c) in
  if includes NAME "IDLE" || includes NAME "STOPPED" then
    let w := update_animationMap character (set_IDLE (bound c)) w in
    m ← member info_mixer;
    let w := set_animation character "IDLE" (clipAction m c) w in
    Returned (log (setLoop (clipAction m c) LoopRepeat) w, true)
  else if includes NAME "WALK" then
    let w := update_animationMap character (set_WALK (bound c)) w in
    m ← member info_mixer;
    let w := set_animation character "WALK" (clipAction m c) w in
    Returned (log (setLoop (clipAction m c) LoopRepeat) w, true)
  else if includes NAME "RUN" || includes NAME "SPRINT" then
    let w := update_animationMap character (set_RUN (bound c)) w in
    m ← member info_mixer;
    let w := set_animation character "RUN" (clipAction m c) w in
    Returned (log (setLoop (clipAction m c) LoopRepeat) w, true)
  else if includes NAME "JUMP" || includes NAME "LEAP" then
    let w := update_animationMap character (set_JUMP (bound c)) w in
    m ← member info_mixer;
    let w := set_animation character "JUMP" (clipAction m c) w in
    Returned (log (clampWhenFinished (clipAction m c))
                (log (setLoop (clipAction m c) LoopOnce) w), true)
  else if includes NAME "ATTACK" || includes NAME "SHOOT" || includes NAME "FIRE" then
    let w := update_animationMap character (set_ATTACK (bound c)) w in
    m ← member info_mixer;
    let w := set_animation character "ATTACK" (clipAction m c) w in
    Returned (log (clampWhenFinished (clipAction m c))
                (log (setLoop (clipAction m c) LoopOnce) w), true)
  else Returned (w, hasFoundValidAnimation).

(** [gltf.animations.forEach] in a function that can raise. *)
Fixpoint forEach {A B : Type} (f : A -> B -> Res A) (a : A) (l : list B) : Res A :=
  match l with
  | [] => Returned a
  | b :: l' => a' ← f a b; forEach f a' l'
  end.

(** [processModelAnimations(gltf, characterType)], lines 953-1043. *)
Definition processModelAnimations (animations : list Clip) (characterType : Character)
    (w : World) : Res World :=
  let info_mixer := mixer (info characterType w) in
  '(w, hasFoundValidAnimation) ←
    forEach (processClip characterType info_mixer) (w, false) animations;
  if hasFoundValidAnimation : bool then
    match animationsOf characterType w !! "IDLE" return Res World with
    | Some a =>
        m ← member info_mixer;
        let w := log (stopAllAction m) w in
        let w := log (play a) w in
        Returned (update_state characterType (set_currentAnimation "IDLE") w)
    | None => Returned w
    end
  else Returned w.

(** The synchronous part of [loadCustomModel(file)], lines 784-810: both
    [animations] variables get a new empty object and both maps are reset. *)
Definition loadCustomModel (w : World) : World :=
  let r := fresh w in
  let w := set_fresh (S (S r)) w in
  let w := set_objects (<[S r := ∅]> (<[r := ∅]> (objects w))) w in
  let w := set_player (set_animations r (player w)) w in
  let w := set_enemy (set_animations (S r) (enemy w)) w in
  let w := update_animationMap Player (fun _ => emptyAnimationMap) w in
  update_animationMap Enemy (fun _ => emptyAnimationMap) w.

(** The success callbacks of [loadCustomModel], lines 816-861 and 867-912;
    [oldModel] tells whether the model variable held a model when
    [loadCustomModel] was called. *)
Definition customLoaded (character : Character) (oldModel : bool)
    (animations : list Clip) (w : World) : Res World :=
  let s := state (info character w) in
  let w :=
    if oldModel then
      match mixer (info character w) with
      | Some m => log (uncacheRoot m) (log (stopAllAction m) w)
      | None => w
      end
    else w in
  let w := set_info character
    (set_model (Some {| model_position := position s;
                        model_rotation_y := rotation_y s |}) (info character w)) w in
  let w := update_state character (set_currentAnimation "NONE") w in
  let m := fresh w in
  let w := set_fresh (S m) w in
  let w := set_info character (set_mixer (Some m) (info character w)) w in
  processModelAnimations animations character w.

(** ** The program as a transition system *)

(** The state at the end of the module's top-level code, lines 84-132 and
    346-354. *)
Definition initialWorld : World :=
  {| keys := {| key_w := false; key_a := false; key_s := false; key_d := false;
                key_space := false; key_shift := false; key_f := false |};
     player :=
       {| state :=
            {| position := {| x := -8; y := 0; z := -8 |};
               rotation_y := 0;
               velocity := {| x := 0; y := 0; z := 0 |};
               currentAnimation := "IDLE";
               moveSpeed := 5; runSpeed := 10; rotationSpeed := 3;
               isAttacking := false; isJumping := false;
               jumpHeight := 3; jumpSpeed := 5;
               attackDistance := 0; followDistance := 0; attackCooldown := 0 |};
          animations := 0%nat;
          animationMap := emptyAnimationMap;
          mixer := None;
          model := None |};
     enemy :=
       {| state :=
            {| position := {| x := 10; y := 0; z := 10 |};
               rotation_y := 0;
               velocity := {| x := 0; y := 0; z := 0 |};
               currentAnimation := "IDLE";
               moveSpeed := 3; runSpeed := 0; rotationSpeed := 0;
               isAttacking := false; isJumping := false;
               jumpHeight := 0; jumpSpeed := 0;
               attackDistance := 2; followDistance := 15; attackCooldown := 0 |};
          animations := 1%nat;
          animationMap := emptyAnimationMap;
          mixer := None;
          model := None |};
     objects := {[ 0%nat := ∅; 1%nat := ∅ ]};
     timeouts := [];
     playback := [];
     fresh := 2%nat |}.

(** What the browser can deliver to the program. *)
Inductive Event : Type :=
  | BuiltinLoaded (character : Character) (animations : list Clip)
  | Keydown (k : Key)
  | Keyup (k : Key)
  | Click
  | Frame (deltaTime : R)
  | Timeout (n : nat)
  | LoadCustomModel
  | CustomLoaded (character : Character) (oldModel : bool) (animations : list Clip).

(** Running the [n]-th pending timeout removes it from the pending ones. *)
Definition fireTimeout (n : nat) (w : World) : Res World :=
  match timeouts w !! n with
  | Some t => attackTimeout t (set_timeouts (delete n (timeouts w)) w)
  | None => Returned w
  end.

Definition handle (e : Event) (w : World) : Res World :=
  match e with
  | BuiltinLoaded character animations => builtinLoaded character animations w
  | Keydown k => keydown k w
  | Keyup k => keyup k w
  | Click => click w
  | Frame deltaTime => animate deltaTime w
  | Timeout n => fireTimeout n w
  | LoadCustomModel => Returned (loadCustomModel w)
  | CustomLoaded character oldModel animations =>
      customLoaded character oldModel animations w
  end.

(** The states the program can be in: any order of events is allowed, which
    includes every order a browser produces. *)
Inductive reachable : World -> Prop :=
  | reachable_initial : reachable initialWorld
  | reachable_step (e : Event) (w w' : World) :
      reachable w -> handle e w = Returned w' -> reachable w'.

(** ** The classification as the specification words it *)

Inductive Role : Type := Idle | Walk | Run | Jump | Attack.

Definition roleName (r : Role) : string :=
  match r with
  | Idle => "IDLE" | Walk => "WALK" | Run => "RUN"
  | Jump => "JUMP" | Attack => "ATTACK"
  end.

Definition entry (r : Role) (map : AnimationMap) : MapEntry :=
  match r with
  | Idle => IDLE map | Walk => WALK map | Run => RUN map
  | Jump => JUMP map | Attack => ATTACK map
  end.

(** The keyword sets of the roles, matched as substrings of the
    upper-cased clip name. *)
Definition keywordSet (r : Role) : list string :=
  match r with
  | Idle => ["IDLE"; "STOPPED"]
  | Walk => ["WALK"]
  | Run => ["RUN"; "SPRINT"]
  | Jump => ["JUMP"; "LEAP"]
  | Attack => ["ATTACK"; "SHOOT"; "FIRE"]
  end.

Definition matchesRole (NAME : string) (r : Role) : bool :=
  existsb (includes NAME) (keywordSet r).

Definition precedence : list Role := [Idle; Walk; Run; Jump; Attack].

(** The first role, in precedence order, whose keyword set the name
    matches. *)
Definition firstMatch (NAME : string) : option Role :=
  List.find (matchesRole NAME) precedence.

(** The built-in model's loader in the same words: it knows three roles,
    counts RUN among the keywords of WALK, and passes over a role that is
    already bound. *)
Definition builtinKeywordSet (r : Role) : list string :=
  match r with
  | Idle => ["IDLE"; "STOPPED"]
  | Attack => ["ATTACK"; "SHOOT"; "FIRE"]
  | Walk => ["WALK"; "RUN"]
  | Run | Jump => []
  end.

Definition builtinPrecedence : list Role := [Idle; Attack; Walk].

Definition builtinChoice (NAME : string) (map : AnimationMap) : option Role :=
  List.find
    (fun r => existsb (includes NAME) (builtinKeywordSet r)
              && negb (truthy (clip (entry r map))))
    builtinPrecedence.

(** ** Some clips *)

Definition runJump : Clip := {| name := "RUN_JUMP"; duration := 1 |}.
Definition baseIdle : Clip := {| name := "Base_IDLE"; duration := 1 |}.
Definition standStopped : Clip := {| name := "Stand_Stopped"; duration := 1 |}.
Definition walkCycle : Clip := {| name := "WalkCycle"; duration := 1 |}.

(** ** Some states of the program *)

(** Both built-in models have loaded and carried no animation clips. *)
Definition arena : World :=
  let p := player initialWorld in
  let e := enemy initialWorld in
  set_fresh 4%nat
    (set_enemy (set_mixer (Some 3%nat)
                  (set_model (Some {| model_position := position (state e);
                                      model_rotation_y := 0 |}) e))
       (set_player (set_mixer (Some 2%nat)
                      (set_model (Some {| model_position := position (state p);
                                          model_rotation_y := 0 |}) p))
          initialWorld)).

(** The player holds W and Shift. *)
Definition sprinting : World :=
  update_keys (fun k => set_key_shift true (set_key_w true k)) arena.

(** The player stands five units from the enemy, on the enemy's -z side. *)
Definition chase : World :=
  update_model Player
    (fun m => {| model_position := {| x := 10; y := 0; z := 5 |};
                 model_rotation_y := model_rotation_y m |})
    (update_state Player (set_position {| x := 10; y := 0; z := 5 |}) arena).

(** The enemy has just started an attack. *)
Definition striking : World :=
  update_state Enemy (fun s => set_attackCooldown 2 (set_isAttacking true s)) arena.

(** As [chase], after the enemy's heading has run up to -5π/2: the heading
    is never brought back into [-π, π], so following a player who walks
    around the enemy makes it grow. *)
Definition spun : World :=
  update_model Enemy
    (fun m => {| model_position := model_position m;
                 model_rotation_y := - (5 * PI / 2) |})
    (update_state Enemy (set_rotation_y (- (5 * PI / 2))) chase).

(** The player has just left the ground. *)
Definition airborne : World :=
  update_state Player
    (fun s => set_velocity {| x := 0; y := jumpSpeed s; z := 0 |} (set_isJumping true s))
    (update_keys (set_key_space true) arena).

(** ** Consistency of the vertical position *)

(** A character that is not jumping stands at height 0; the enemy, whose
    state has no [isJumping] field in the source, never jumps. *)
Definition grounded (w : World) : Prop :=
  (isJumping (playerState w) = false -> y (position (playerState w)) = 0) /\
  isJumping (enemyState w) = false /\
  y (position (enemyState w)) = 0.

(** What [grounded] looks at. *)
Definition vertical (w : World) : bool * R * (bool * R) :=
  (isJumping (playerState w), y (position (playerState w)),
   (isJumping (enemyState w), y (position (enemyState w)))).

(** ** Closed forms used in the proofs *)

(** The enemy's state after it followed the player for one tick, before the
    WALK animation is requested: lines 636-678 in one expression. *)
Definition followed (deltaTime : R) (direction : Vector3) (me : Model) (w : World) : World :=
  let d := THREE.normalize direction in
  let rot := smoothRotate (model_rotation_y me) (atan2 (x d) (z d)) deltaTime in
  let s := enemyState w in
  let vx := - sin rot * moveSpeed s * -1 in
  let vz := - cos rot * moveSpeed s * -1 in
  let newPosX := x (position s) + vx * deltaTime in
  let newPosZ := z (position s) + vz * deltaTime in
  let accepted := positionAccepted newPosX newPosZ in
  let position' :=
    if accepted then {| x := newPosX; y := y (position s); z := newPosZ |}
    else position s in
  update_state Enemy
    (fun s => set_position position'
                (set_velocity {| x := vx; y := y (velocity s); z := vz |}
                   (set_rotation_y rot s)))
    (update_model Enemy
       (fun _ => {| model_position := if accepted then position' else model_position me;
                    model_rotation_y := rot |}) w).

(** The player's heading after the A and D keys of one tick, lines 511-516. *)
Definition turned (deltaTime : R) (w : World) (m : Model) : R :=
  let r := if key_a (keys w)
           then model_rotation_y m + rotationSpeed (playerState w) * deltaTime
           else model_rotation_y m in
  if key_d (keys w) then r + - (rotationSpeed (playerState w) * deltaTime) else r.

(** The test that makes [updateEnemy] return at once, line 621. *)
Definition blocked (w : World) : bool :=
  negb (truthy (enemyModel w)) || negb (truthy (playerModel w))
  || isAttacking (enemyState w).

(** The angular distance between two headings as the specification means
    it: the length of the shorter arc between them, a value in [0, π]. *)
Definition angularDistance (a b : R) : R := acos (cos (a - b)).

(** ** Upload of a model file *)

Definition lower_ascii (c : ascii) : ascii :=
  let n := nat_of_ascii c in
  if (65 <=? n)%nat && (n <=? 90)%nat then ascii_of_nat (n + 32) else c.

Fixpoint toLowerCase (s : string) : string :=
  match s with
  | EmptyString => EmptyString
  | String c s' => String (lower_ascii c) (toLowerCase s')
  end.

(** [s.endsWith(suffix)]. *)
Fixpoint endsWith (s suffix : string) : bool :=
  String.eqb s suffix ||
  match s with
  | EmptyString => false
  | String _ s' => endsWith s' suffix
  end.

(** The [File] a drop or a file input hands over; only its name is read. *)
Record File : Type := mkFile { file_name : string }.

Definition validExtensions : list string := [".glb"; ".gltf"].

(** [isValidModelFile(file)], lines 777-781. *)
Definition isValidModelFile (file : File) : bool :=
  let fileName := toLowerCase (file_name file) in
  existsb (fun ext => endsWith fileName ext) validExtensions.

(** The body shared by the [drop] and [change] listeners, lines 755-773:
    [file] is [files[0]], which is [undefined] when nothing was handed
    over. The result carries the messages passed to [alert]; of
    [loadCustomModel] the synchronous part is run. *)
Definition fileChosen (file : option File) (w : World) : World * list string :=
  match file with
  | Some f =>
      if isValidModelFile f then (loadCustomModel w, [])
      else (w, ["Please upload a .glb or .gltf file"])
  | None => (w, ["Please upload a .glb or .gltf file"])
  end.

(** ** More closed forms used in the proofs *)

#[global] Instance Character_eq_dec : EqDecision Character.
Proof. solve_decision. Defined.

Definition set_entry (r : Role) : MapEntry -> AnimationMap -> AnimationMap :=
  match r with
  | Idle => set_IDLE | Walk => set_WALK | Run => set_RUN
  | Jump => set_JUMP | Attack => set_ATTACK
  end.

(** The timeout [performAttack] arms in state [w], lines 487-497. *)
Definition attackTimer (character : Character) (w : World) : Timer :=
  let i := info character w in
  let d := entry_duration (ATTACK (animationMap i)) in
  {| timer_character := character;
     timer_animations := animations i;
     delay := (if decide (d > 0) then d else 1) * 1000 |}.

(** The number of pending timeouts of a character. *)
Definition pending (character : Character) (w : World) : nat :=
  List.length (filter (fun t => timer_character t = character) (timeouts w)).

(** The player's state and model after one tick that is not cut short,
    before any animation is requested: lines 510-594 in one expression. *)
Definition ticked (deltaTime : R) (m : Model) (w : World) : World :=
  let s := playerState w in
  let r := turned deltaTime w m in
  let jumping := isJumping s in
  let vy1 := y (velocity s) - 9.8 * deltaTime in
  let py1 := y (position s) + vy1 * deltaTime in
  let landed := bool_decide (py1 <= 0) in
  let vy := if jumping then (if landed then 0 else vy1) else y (velocity s) in
  let py := if jumping then (if landed then 0 else py1) else y (position s) in
  let moving := key_w (keys w) || key_s (keys w) in
  let currentSpeed := if key_shift (keys w) then runSpeed s else moveSpeed s in
  let direction : R := if key_w (keys w) then -1 else 1 in
  let vx := if moving then - sin r * currentSpeed * direction else x (velocity s) in
  let vz := if moving then - cos r * currentSpeed * direction else z (velocity s) in
  let newPosX := x (position s) + vx * deltaTime in
  let newPosZ := z (position s) + vz * deltaTime in
  let accepted := moving && positionAccepted newPosX newPosZ in
  let s' :=
    set_isJumping (jumping && negb landed)
      (set_velocity {| x := vx; y := vy; z := vz |}
         (set_rotation_y r
            (set_position {| x := if accepted then newPosX else x (position s);
                             y := py;
                             z := if accepted then newPosZ else z (position s) |} s))) in
  let m' :=
    {| model_position :=
         {| x := if accepted then newPosX else x (model_position m);
            y := if jumping then py else y (model_position m);
            z := if accepted then newPosZ else z (model_position m) |};
       model_rotation_y := r |} in
  set_player (set_state s' (set_model (Some m') (player w))) w.

(** The steps every event handler is made of. *)
Inductive effect : World -> World -> Prop :=
  | effect_playback (calls : list PlaybackCall) (w : World) :
      effect w (set_playback calls w)
  | effect_keys (k : Keys) (w : World) :
      effect w (set_keys k w)
  | effect_animation (character : Character) (current : string) (w : World) :
      effect w (update_state character (set_currentAnimation current) w)
  | effect_attack (character : Character) (a : Action) (w : World) :
      animationsOf character w !! "ATTACK" = Some a ->
      isAttacking (state (info character w)) = false ->
      (character = Player -> isJumping (playerState w) = false) ->
      effect w
        (set_timeouts (timeouts w ++ [attackTimer character w])
           (update_state character (set_isAttacking true) w))
  | effect_release (n : nat) (t : Timer) (w : World) :
      timeouts w !! n = Some t ->
      effect w
        (update_state (timer_character t) (set_isAttacking false)
           (set_timeouts (delete n (timeouts w)) w))
  | effect_jump (w : World) :
      isJumping (playerState w) = false ->
      isAttacking (playerState w) = false ->
      effect w
        (update_state Player
           (fun s => set_velocity {| x := x (velocity s); y := jumpSpeed s;
                                     z := z (velocity s) |}
                       (set_isJumping true s)) w)
  | effect_player (deltaTime : R) (m : Model) (w : World) :
      playerModel w = Some m ->
      isAttacking (playerState w) && negb (isJumping (playerState w)) = false ->
      effect w (ticked deltaTime m w)
  | effect_follow (deltaTime : R) (direction : Vector3) (me : Model) (w : World) :
      enemyModel w = Some me ->
      effect w (followed deltaTime direction me w)
  | effect_cooldown (cooldown : R) (w : World) :
      effect w (update_state Enemy (set_attackCooldown cooldown) w)
  | effect_model (character : Character) (w : World) :
      effect w
        (set_info character
           (set_model
              (Some {| model_position := position (state (info character w));
                       model_rotation_y := rotation_y (state (info character w)) |})
              (info character w)) w)
  | effect_mixer (character : Character) (w : World) :
      effect w
        (set_info character (set_mixer (Some (fresh w)) (info character (set_fresh (S (fresh w)) w)))
           (set_fresh (S (fresh w)) w))
  | effect_bind (character : Character) (r : Role) (c : Clip) (m : Mixer) (w : World) :
      effect w
        (set_animation character (roleName r) (clipAction m c)
           (update_animationMap character (set_entry r (bound c)) w))
  | effect_reset (w : World) :
      effect w (loadCustomModel w).

#[global] Instance Role_eq_dec : EqDecision Role.
Proof. solve_decision. Defined.

(** The tuning values of a state. *)
Definition tuning (s : CharacterState) : R * R * R * (R * R) * (R * R) :=
  (moveSpeed s, runSpeed s, rotationSpeed s, (jumpHeight s, jumpSpeed s),
   (attackDistance s, followDistance s)).

(** What is bound for a character agrees between its animations object and
    its animation map, and the object has no other keys. *)
Definition agree (character : Character) (w : World) : Prop :=
  (forall r : Role,
     match animationsOf character w !! roleName r with
     | Some a => entry r (animationMap (info character w)) = bound (action_clip a)
     | None => clip (entry r (animationMap (info character w))) = None
     end) /\
  (forall k, is_Some (animationsOf character w !! k) -> exists r, k = roleName r).

(** The program run on a sequence of events. *)
Definition run (events : list Event) (w : World) : Res World :=
  forEach (fun w e => handle e w) w events.

(** A clip for attacks, 0.8 seconds long. *)
Definition slash : Clip := {| name := "Slash_Attack"; duration := 0.8 |}.

(** ** Observations used by the further properties *)

(** No clip is bound for either character: the state from the start until
    a loader callback runs, and again after every upload. *)
Definition unbound (w : World) : Prop :=
  playerAnimations w = ∅ /\ enemyAnimations w = ∅.

(** The events that are loader callbacks. *)
Definition loads (e : Event) : bool :=
  match e with
  | BuiltinLoaded _ _ | CustomLoaded _ _ _ => true
  | _ => false
  end.

Definition isUpdate (p : PlaybackCall) : bool :=
  match p with update _ _ => true | _ => false end.

(** What a stretch without bound clips leaves alone. *)
Definition staged (w : World)
    : gmap string Action * gmap string Action * (string * string) * (bool * bool)
      * list Timer * list PlaybackCall :=
  (playerAnimations w, enemyAnimations w,
   (currentAnimation (playerState w), currentAnimation (enemyState w)),
   (isAttacking (playerState w), isAttacking (enemyState w)),
   timeouts w, playback w).

(** What the vertical part of a tick of the player reads and writes. *)
Definition flight (w : World) : bool * R * R :=
  (isJumping (playerState w), y (position (playerState w)),
   y (velocity (playerState w))).

(** The vertical part of one tick on those three values: lines 522-535. *)
Definition fall (deltaTime : R) (v : bool * R * R) : bool * R * R :=
  let '(jumping, py, vy) := v in
  if jumping : bool then
    let vy1 := vy - 9.8 * deltaTime in
    let py1 := py + vy1 * deltaTime in
    if decide (py1 <= 0) then (false, 0, 0) else (true, py1, vy1)
  else v.

(** Twice 9.8 times the height plus the square of the vertical speed. *)
Definition energy (s : CharacterState) : R :=
  2 * 9.8 * y (position s) + y (velocity s) * y (velocity s).

Arguments setAnimation : simpl never.
Arguments movementAnimation : simpl never.
Arguments positionAccepted : simpl never.
Arguments smoothRotate : simpl never.
Arguments atan2 : simpl never.
Arguments THREE.normalize : simpl never.
Arguments THREE.length : simpl never.

(** * Properties *)

(** Normal forms of record updates. *)
Ltac records :=
  cbv [set_position set_rotation_y set_velocity set_currentAnimation
       set_isAttacking set_isJumping set_attackCooldown
       set_IDLE set_WALK set_RUN set_JUMP set_ATTACK
       set_state set_animations set_animationMap set_mixer set_model
       set_keys set_player set_enemy set_objects set_timeouts set_playback
       set_fresh update_state update_model update_animationMap update_keys
       set_info info log
       keys player enemy objects timeouts playback fresh
       state animations animationMap mixer model
       position rotation_y velocity currentAnimation moveSpeed runSpeed
       rotationSpeed isAttacking isJumping jumpHeight jumpSpeed
       attackDistance followDistance attackCooldown
       x y z model_position model_rotation_y
       key_w key_a key_s key_d key_space key_shift key_f
       playerState enemyState playerModel enemyModel
       fmap option_fmap option_map mbind Res_bind mret Res_ret member
       fst snd truthy].

(** Normal forms of the example states. *)
Ltac worlds :=
  cbv [sprinting chase striking spun airborne arena initialWorld turned
       set_position set_rotation_y set_velocity set_currentAnimation
       set_isAttacking set_isJumping set_attackCooldown
       set_state set_animations set_animationMap set_mixer set_model
       set_keys set_player set_enemy set_objects set_timeouts set_playback
       set_fresh update_state update_model update_animationMap update_keys
       set_key_w set_key_a set_key_s set_key_d set_key_space set_key_shift set_key_f
       set_info info log
       keys player enemy objects timeouts playback fresh
       state animations animationMap mixer model
       position rotation_y velocity currentAnimation moveSpeed runSpeed
       rotationSpeed isAttacking isJumping jumpHeight jumpSpeed
       attackDistance followDistance attackCooldown
       x y z model_position model_rotation_y
       key_w key_a key_s key_d key_space key_shift key_f
       playerState enemyState playerModel enemyModel
       THREE.subVectors THREE.length
       fmap option_fmap option_map fst snd truthy negb andb orb] in *.

(** ** What [setAnimation] can change *)

Lemma update_state_id (character : Character) (w : World) :
  set_playback (playback w)
    (update_state character
       (set_currentAnimation (currentAnimation (state (info character w)))) w) = w.
Proof.
  destruct w as [k [[] ? ? ? ?] [[] ? ? ? ?] o t p f], character; reflexivity.
Qed.

(** [setAnimation] always returns, and the state it returns differs from the
    one it was given in [currentAnimation] of that character and in the
    playback log at most. *)
Lemma setAnimation_shape (character : Character) (animationName : string) (w : World) :
  exists (current : string) (calls : list PlaybackCall),
    setAnimation character animationName w =
      Returned (set_playback calls
                  (update_state character (set_currentAnimation current) w)).
Proof.
  unfold setAnimation.
  destruct (animationsOf character w !! animationName) as [a|] eqn:Ha; simpl.
  2: { eexists _, _. rewrite update_state_id. reflexivity. }
  destruct (String.eqb _ animationName).
  { eexists _, _. rewrite update_state_id. reflexivity. }
  assert (Hlog : forall c, animationsOf character (log c w) = animationsOf character w).
  { intros c. destruct character; reflexivity. }
  destruct (mixer (info character w)); [rewrite Hlog|]; rewrite Ha; simpl;
    destruct (_ || _); eexists animationName, _;
    destruct character; reflexivity.
Qed.

Lemma arena_reachable : reachable arena.
Proof.
  eapply (reachable_step (BuiltinLoaded Enemy [])).
  - eapply (reachable_step (BuiltinLoaded Player [])).
    + apply reachable_initial.
    + reflexivity.
  - reflexivity.
Qed.

(** ** Requests for an animation that is not bound *)

(** C9. A request for an animation name that has no action in the
    character's animations object returns normally and returns the state it
    was given: [currentAnimation] is as before, nothing was added to the
    playback log, and no exception was raised. *)
Theorem setAnimation_unbound_is_noop
    (character : Character) (animationName : string) (w : World) :
  animationsOf character w !! animationName = None ->
  setAnimation character animationName w = Returned w.
Proof.
  intros Hnone. unfold setAnimation. rewrite Hnone. reflexivity.
Qed.

Lemma setAnimation_unbound_is_noop_witness :
  animationsOf Enemy arena !! "WALK" = None /\
  setAnimation Enemy "WALK" arena = Returned arena.
Proof.
  split; [reflexivity|].
  apply (setAnimation_unbound_is_noop Enemy "WALK" arena). reflexivity.
Defined.

(** ** Attacks *)

(** C3, as the code has it. Without an ATTACK action [performAttack] does
    nothing at all. With one it sets [isAttacking], requests the ATTACK
    animation and arms one timeout, whose delay is the duration recorded for
    ATTACK when that is positive and one second otherwise. When a timeout
    runs, [isAttacking] becomes false and IDLE is requested if the
    animations object the timeout holds has it. *)
Theorem performAttack_locks_for_clip_duration (character : Character) (w : World) :
  match animationsOf character w !! "ATTACK" with
  | None => performAttack character w = Returned w
  | Some _ =>
      let d := entry_duration (ATTACK (animationMap (info character w))) in
      let t := {| timer_character := character;
                  timer_animations := animations (info character w);
                  delay := (if decide (d > 0) then d else 1) * 1000 |} in
      exists w1,
        setAnimation character "ATTACK"
          (update_state character (set_isAttacking true) w) = Returned w1 /\
        isAttacking (state (info character w1)) = true /\
        performAttack character w = Returned (set_timeouts (timeouts w1 ++ [t]) w1)
  end /\
  forall t : Timer,
    let w1 := update_state (timer_character t) (set_isAttacking false) w in
    exists w2,
      attackTimeout t w = Returned w2 /\
      isAttacking (state (info (timer_character t) w2)) = false /\
      match (objects w !!! timer_animations t) !! "IDLE" with
      | Some _ => setAnimation (timer_character t) "IDLE" w1 = Returned w2
      | None => w2 = w1
      end.
Proof.
  split.
  - unfold performAttack.
    destruct (animationsOf character w !! "ATTACK") as [a|]; [|reflexivity].
    simpl.
    destruct (setAnimation_shape character "ATTACK"
                (update_state character (set_isAttacking true) w))
      as (current & calls & Hset).
    rewrite Hset. eexists. split; [reflexivity|]. split.
    + destruct character; reflexivity.
    + reflexivity.
  - intros t. unfold attackTimeout. simpl.
    assert (Hobj : objects (update_state (timer_character t) (set_isAttacking false) w)
                   = objects w) by (destruct (timer_character t); reflexivity).
    rewrite Hobj.
    destruct ((objects w !!! timer_animations t) !! "IDLE"); simpl.
    + destruct (setAnimation_shape (timer_character t) "IDLE"
                  (update_state (timer_character t) (set_isAttacking false) w))
        as (current & calls & Hset).
      rewrite Hset. eexists. split; [reflexivity|]. split; [|reflexivity].
      destruct (timer_character t); reflexivity.
    + eexists. split; [reflexivity|]. split; [|reflexivity].
      destruct (timer_character t); reflexivity.
Qed.

(** C3 as stated fails: with no ATTACK action the attack lock is not
    armed. In [arena] no animation is bound; [performAttack] leaves
    [isAttacking] false and arms no timeout. *)
Lemma performAttack_without_clip_arms_nothing :
  animationsOf Player arena !! "ATTACK" = None /\
  exists w',
    performAttack Player arena = Returned w' /\
    isAttacking (playerState w') = false /\
    timeouts w' = [].
Proof.
  split; [reflexivity|].
  exists arena. repeat split; reflexivity.
Qed.

(** ** Classification of clips *)

Example toUpperCase_Stand_Stopped : toUpperCase "Stand_Stopped" = "STAND_STOPPED".
Proof. reflexivity. Qed.

Example includes_RUN_JUMP :
  includes "RUN_JUMP" "RUN" = true /\ includes "RUN_JUMP" "JUMP" = true /\
  includes "RUN_JUMP" "WALK" = false.
Proof. repeat split; reflexivity. Qed.

Example firstMatch_IDLE_TO_RUN_TRANSITION :
  firstMatch "IDLE_TO_RUN_TRANSITION" = Some Idle.
Proof. reflexivity. Qed.

Lemma animationsOf_set_animation (character : Character) (role : string)
    (a : Action) (w : World) :
  animationsOf character (set_animation character role a w)
  = <[role := a]> (animationsOf character w).
Proof.
  destruct character; unfold animationsOf, set_animation; simpl;
    apply lookup_total_insert_eq.
Qed.

Lemma animationsOf_update_animationMap (character : Character)
    (f : AnimationMap -> AnimationMap) (w : World) :
  animationsOf character (update_animationMap character f w) = animationsOf character w.
Proof. destruct character; reflexivity. Qed.

Lemma animationsOf_log (character : Character) (p : PlaybackCall) (w : World) :
  animationsOf character (log p w) = animationsOf character w.
Proof. destruct character; reflexivity. Qed.

Lemma animationMap_set_animation (character : Character) (role : string)
    (a : Action) (w : World) :
  animationMap (info character (set_animation character role a w))
  = animationMap (info character w).
Proof. destruct character; reflexivity. Qed.

Lemma animationMap_update_animationMap (character : Character)
    (f : AnimationMap -> AnimationMap) (w : World) :
  animationMap (info character (update_animationMap character f w))
  = f (animationMap (info character w)).
Proof. destruct character; reflexivity. Qed.

Lemma animationMap_log (character : Character) (p : PlaybackCall) (w : World) :
  animationMap (info character (log p w)) = animationMap (info character w).
Proof. destruct character; reflexivity. Qed.

Ltac classified :=
  rewrite ?animationMap_log, ?animationsOf_log,
    ?animationMap_set_animation, ?animationsOf_set_animation,
    ?animationMap_update_animationMap, ?animationsOf_update_animationMap.

(** The binding of one role: the other roles keep what they had. *)
Lemma binding_one_role (character : Character) (m : Mixer) (c : Clip)
    (r : Role) (set_r : MapEntry -> AnimationMap -> AnimationMap) (w w' : World) :
  (forall map, entry r (set_r (bound c) map) = bound c) ->
  (forall map r', r' <> r -> entry r' (set_r (bound c) map) = entry r' map) ->
  animationMap (info character w') = set_r (bound c) (animationMap (info character w)) ->
  animationsOf character w' = <[roleName r := clipAction m c]> (animationsOf character w) ->
  (entry r (animationMap (info character w')) = bound c /\
   animationsOf character w' !! roleName r = Some (clipAction m c)) /\
  (forall r', r' <> r ->
     entry r' (animationMap (info character w')) = entry r' (animationMap (info character w)) /\
     animationsOf character w' !! roleName r' = animationsOf character w !! roleName r').
Proof.
  intros Hget Hother -> ->. split.
  - split; [apply Hget | apply lookup_insert_eq].
  - intros r' Hne. split; [apply Hother, Hne|].
    apply lookup_insert_ne. destruct r, r'; simpl; congruence.
Qed.

Ltac one_role r set_r :=
  eapply (binding_one_role _ _ _ r set_r);
  [ reflexivity
  | intros ? [] ?; (reflexivity || congruence)
  | classified; reflexivity
  | classified; reflexivity ].

(** C1, as the code has it. The classifier of an uploaded model
    ([processModelAnimations]) tests a clip against the keyword sets in the
    order IDLE, WALK, RUN, JUMP, ATTACK: a clip whose first matching role
    has no binding yet is bound to that role and changes no other role, and
    a clip that matches no set changes nothing; RUN_JUMP is classified as
    RUN. The loader of the built-in model instead tests IDLE, ATTACK, WALK,
    with RUN among the keywords of WALK, and binds a clip to the first of
    these that it matches and that has no binding yet. *)
Theorem classification_precedence
    (character : Character) (m : Mixer) (w : World) (found : bool) (c : Clip) :
  let NAME := toUpperCase (name c) in
  let bound_to (r : Role) (w' : World) :=
    entry r (animationMap (info character w')) = bound c /\
    animationsOf character w' !! roleName r = Some (clipAction m c) in
  let others_kept (r : Role) (w' : World) :=
    forall r', r' <> r ->
      entry r' (animationMap (info character w')) = entry r' (animationMap (info character w)) /\
      animationsOf character w' !! roleName r' = animationsOf character w !! roleName r' in
  match firstMatch NAME with
  | Some r =>
      clip (entry r (animationMap (info character w))) = None ->
      exists w',
        processClip character (Some m) (w, found) c = Returned (w', true) /\
        bound_to r w' /\ others_kept r w'
  | None => processClip character (Some m) (w, found) c = Returned (w, found)
  end /\
  match builtinChoice NAME (animationMap (info character w)) with
  | Some r =>
      bound_to r (builtinClip character m w c) /\
      others_kept r (builtinClip character m w c)
  | None => builtinClip character m w c = w
  end /\
  firstMatch (toUpperCase "RUN_JUMP") = Some Run.
Proof.
  intros NAME bound_to others_kept. subst bound_to others_kept. cbv beta.
  split; [|split; [|reflexivity]].
  - unfold firstMatch, precedence, matchesRole, keywordSet, processClip. simpl.
    fold NAME. rewrite !orb_false_r, <- !orb_assoc.
    destruct (includes NAME "IDLE" || includes NAME "STOPPED").
    { intros _. eexists. split; [reflexivity|]. one_role Idle set_IDLE. }
    destruct (includes NAME "WALK").
    { intros _. eexists. split; [reflexivity|]. one_role Walk set_WALK. }
    destruct (includes NAME "RUN" || includes NAME "SPRINT").
    { intros _. eexists. split; [reflexivity|]. one_role Run set_RUN. }
    destruct (includes NAME "JUMP" || includes NAME "LEAP").
    { intros _. eexists. split; [reflexivity|]. one_role Jump set_JUMP. }
    destruct (includes NAME "ATTACK" || (includes NAME "SHOOT" || includes NAME "FIRE")).
    { intros _. eexists. split; [reflexivity|]. one_role Attack set_ATTACK. }
    reflexivity.
  - unfold builtinChoice, builtinPrecedence, builtinKeywordSet, builtinClip. simpl.
    fold NAME. rewrite !orb_false_r, <- !orb_assoc.
    destruct ((includes NAME "IDLE" || includes NAME "STOPPED") && _).
    { one_role Idle set_IDLE. }
    destruct ((includes NAME "ATTACK" || (includes NAME "SHOOT" || includes NAME "FIRE")) && _).
    { one_role Attack set_ATTACK. }
    destruct ((includes NAME "WALK" || includes NAME "RUN") && _).
    { one_role Walk set_WALK. }
    reflexivity.
Qed.

Lemma classification_precedence_witness :
  clip (RUN (animationMap (player arena))) = None /\
  exists w',
    processClip Player (Some 2%nat) (arena, false) runJump = Returned (w', true) /\
    RUN (animationMap (player w')) = bound runJump.
Proof.
  split; [reflexivity|].
  destruct (proj1 (classification_precedence Player 2%nat arena false runJump) eq_refl)
    as (w' & Hrun & (Hbound & _) & _).
  exists w'. split; [exact Hrun | exact Hbound].
Defined.

(** C1 as stated fails: the loader of the built-in model classifies a clip
    named RUN_JUMP as WALK, and binds nothing to RUN. *)
Lemma builtin_loader_classifies_RUN_JUMP_as_WALK :
  exists w',
    builtinLoaded Player [runJump] initialWorld = Returned w' /\
    clip (WALK (animationMap (player w'))) = Some runJump /\
    playerAnimations w' !! "WALK" = Some (clipAction 2%nat runJump) /\
    clip (RUN (animationMap (player w'))) = None /\
    playerAnimations w' !! "RUN" = None.
Proof.
  eexists. split; [vm_compute; reflexivity|].
  repeat split; vm_compute; reflexivity.
Qed.

(** The loader of the built-in model never replaces a binding. *)
Lemma builtinClip_keeps_binding (character : Character) (m : Mixer) (w : World)
    (c c0 : Clip) (r : Role) :
  clip (entry r (animationMap (info character w))) = Some c0 ->
  entry r (animationMap (info character (builtinClip character m w c)))
  = entry r (animationMap (info character w)).
Proof.
  intros Hbound. unfold builtinClip.
  repeat match goal with
  | |- context [if ?b && negb (truthy ?o) then _ else _] =>
      let Hb := fresh "Hb" in
      destruct (b && negb (truthy o)) eqn:Hb;
      [ apply andb_prop in Hb as [_ Hb]; destruct o eqn:?; [discriminate|];
        classified; destruct r; simpl in *; congruence || reflexivity
      | ]
  end.
  reflexivity.
Qed.

(** C2 at the failing input. For an uploaded model with the clips
    Base_IDLE, Stand_Stopped, WalkCycle, [processModelAnimations] leaves IDLE
    bound to Stand_Stopped, the later of the two clips that match IDLE; the
    loader of the built-in model, given the same clips, keeps Base_IDLE. *)
Theorem uploaded_model_binds_last_matching_clip :
  (exists w',
     customLoaded Player true [baseIdle; standStopped; walkCycle]
       (loadCustomModel arena) = Returned w' /\
     clip (IDLE (animationMap (player w'))) = Some standStopped /\
     action_clip <$> playerAnimations w' !! "IDLE" = Some standStopped /\
     clip (WALK (animationMap (player w'))) = Some walkCycle) /\
  (exists w',
     builtinLoaded Player [baseIdle; standStopped; walkCycle] initialWorld
       = Returned w' /\
     clip (IDLE (animationMap (player w'))) = Some baseIdle /\
     action_clip <$> playerAnimations w' !! "IDLE" = Some baseIdle /\
     clip (WALK (animationMap (player w'))) = Some walkCycle).
Proof.
  split; (eexists; split; [vm_compute; reflexivity|]);
    repeat split; vm_compute; reflexivity.
Qed.

(** ** One tick of the player *)

Lemma movementAnimation_shape (moving running : bool) (w : World) :
  exists (current : string) (calls : list PlaybackCall),
    movementAnimation moving running w =
      Returned (set_playback calls
                  (update_state Player (set_currentAnimation current) w)).
Proof.
  unfold movementAnimation.
  repeat match goal with
  | |- context [if ?b then _ else _] => destruct b
  end;
  try apply setAnimation_shape;
  eexists _, _; rewrite (update_state_id Player); reflexivity.
Qed.

Lemma rotatePlayer_spec (deltaTime : R) (w : World) (m : Model) :
  playerModel w = Some m ->
  rotatePlayer deltaTime w =
    Returned
      (update_state Player (set_rotation_y (turned deltaTime w m))
         (update_model Player
            (fun _ => {| model_position := model_position m;
                         model_rotation_y := turned deltaTime w m |}) w)).
Proof.
  unfold playerModel, rotatePlayer, turned. intros Hmodel.
  destruct w as [k [st an am mx md] en ob ti pb fr]. simpl in *. subst md.
  destruct m as [mp mr].
  destruct (key_a k); simpl; destruct (key_d k); simpl; reflexivity.
Qed.

Lemma jumpPlayer_spec (deltaTime : R) (w : World) (m : Model) :
  playerModel w = Some m ->
  exists (py vy my : R) (jumping : bool) (current : string)
         (calls : list PlaybackCall) (flags : bool * bool),
    jumpPlayer deltaTime w =
      Returned
        (set_playback calls
           (update_state Player
              (fun s =>
                 set_currentAnimation current
                   (set_isJumping jumping
                      (set_velocity {| x := x (velocity s); y := vy; z := z (velocity s) |}
                         (set_position {| x := x (position s); y := py; z := z (position s) |} s))))
              (update_model Player
                 (fun _ => {| model_position :=
                                {| x := x (model_position m); y := my;
                                   z := z (model_position m) |};
                              model_rotation_y := model_rotation_y m |}) w)),
         flags) /\
    (isJumping (playerState w) = false ->
       jumping = false /\ py = y (position (playerState w))) /\
    (isJumping (playerState w) = true ->
       let vy1 := y (velocity (playerState w)) - 9.8 * deltaTime in
       let py1 := y (position (playerState w)) + vy1 * deltaTime in
       if decide (py1 <= 0) then jumping = false /\ py = 0 /\ vy = 0
       else jumping = true /\ py = py1 /\ vy = vy1).
Proof.
  unfold playerModel, playerState. intros Hmodel. unfold jumpPlayer, playerState.
  destruct w as [[kw ka ks kd ksp ksh kf] [[[] ? [] ? ? ? ? ? j ? ? ? ? ?] an am mx md] en ob ti pb fr].
  simpl in *. subst md. destruct m as [[] ?]. destruct j; records.
  - match goal with |- context [decide (?a <= 0)] => destruct (decide (a <= 0)) end.
    + destruct (kw || ks);
        match goal with |- context [movementAnimation ?a ?b ?W] =>
          destruct (movementAnimation_shape a b W) as (cur & calls & ->) end;
        records.
      * eexists _, _, _, _, _, _, _. split; [reflexivity|]. split; [discriminate|].
        intros _. split; [reflexivity|]. split; reflexivity.
      * eexists _, _, _, _, _, _, _. split; [reflexivity|]. split; [discriminate|].
        intros _. split; [reflexivity|]. split; reflexivity.
    + eexists _, _, _, _, _, _, _. split; [reflexivity|]. split; [discriminate|].
      intros _. split; [reflexivity|]. split; reflexivity.
  - eexists _, _, _, _, _, _, _. split; [reflexivity|].
    split; [intros _; split; reflexivity | discriminate].
Qed.

Lemma movePlayer_spec (deltaTime : R) (flags : bool * bool) (w : World) (m : Model) :
  playerModel w = Some m ->
  key_w (keys w) || key_s (keys w) = true ->
  let s := playerState w in
  let currentSpeed := if key_shift (keys w) then runSpeed s else moveSpeed s in
  let direction := if key_w (keys w) then -1 else 1 in
  let vx := - sin (model_rotation_y m) * currentSpeed * direction in
  let vz := - cos (model_rotation_y m) * currentSpeed * direction in
  let newPosX := x (position s) + vx * deltaTime in
  let newPosZ := z (position s) + vz * deltaTime in
  let w1 :=
    update_state Player
      (set_velocity {| x := vx; y := y (velocity s); z := vz |}) w in
  movePlayer deltaTime flags w =
    Returned
      (if positionAccepted newPosX newPosZ then
         update_model Player
           (fun _ => {| model_position :=
                          {| x := newPosX; y := y (model_position m); z := newPosZ |};
                        model_rotation_y := model_rotation_y m |})
           (update_state Player
              (set_position {| x := newPosX; y := y (position s); z := newPosZ |}) w1)
       else w1,
       (true, key_shift (keys w))).
Proof.
  unfold playerModel, playerState. intros Hmodel Hkeys. unfold movePlayer, playerState.
  destruct w as [[kw ka ks kd ksp ksh kf]
                 [[[] ? [] ? ? ? ? ? j ? ? ? ? ?] an am mx md] en ob ti pb fr].
  simpl in *. subst md. destruct m as [[] ?]. rewrite Hkeys. records.
  match goal with |- context [positionAccepted ?a ?b] =>
    destruct (positionAccepted a b) end; reflexivity.
Qed.

Lemma updatePlayer_moves (deltaTime : R) (w : World) (m : Model) :
  playerModel w = Some m ->
  isAttacking (playerState w) && negb (isJumping (playerState w)) = false ->
  key_w (keys w) || key_s (keys w) = true ->
  exists w',
    updatePlayer deltaTime w = Returned w' /\
    let s := playerState w in
    let s' := playerState w' in
    let currentSpeed := if key_shift (keys w) then runSpeed s else moveSpeed s in
    let direction := if key_w (keys w) then -1 else 1 in
    let newPosX := x (position s) + x (velocity s') * deltaTime in
    let newPosZ := z (position s) + z (velocity s') * deltaTime in
    rotation_y s' = turned deltaTime w m /\
    x (velocity s') = - sin (rotation_y s') * currentSpeed * direction /\
    z (velocity s') = - cos (rotation_y s') * currentSpeed * direction /\
    x (position s') = (if positionAccepted newPosX newPosZ
                       then newPosX else x (position s)) /\
    z (position s') = (if positionAccepted newPosX newPosZ
                       then newPosZ else z (position s)).
Proof.
  intros Hmodel Hfree Hkeys. unfold updatePlayer.
  rewrite Hmodel, Hfree. cbn [truthy negb].
  rewrite (rotatePlayer_spec deltaTime w m Hmodel).
  set (r := turned deltaTime w m). clearbody r.
  unfold playerModel, playerState in *.
  destruct w as [[kw ka ks kd ksp ksh kf]
                 [[[] ? [] ? ? ? ? ? j ? ? ? ? ?] an am mx md] en ob ti pb fr].
  simpl in *. subst md. destruct m as [[] ?]. records.
  match goal with |- context [jumpPlayer deltaTime ?W] =>
    destruct (jumpPlayer_spec deltaTime W _ eq_refl)
      as (py & vy & my & jumping & current & calls & flags & -> & _) end.
  records.
  match goal with |- context [movePlayer deltaTime ?f ?W] =>
    rewrite (movePlayer_spec deltaTime f W _ eq_refl Hkeys) end.
  records.
  match goal with |- context [positionAccepted ?a ?b] =>
    destruct (positionAccepted a b) eqn:Hacc end; records.
  all: match goal with
       | |- context [if ?b then movementAnimation ?a1 ?a2 ?W else _] =>
           destruct b;
           [ destruct (movementAnimation_shape a1 a2 W) as (cur & calls' & ->) | ]
       end.
  all: records; eexists; (split; [reflexivity|]); records; rewrite Hacc; auto.
Qed.

(** ** One tick of the enemy *)

Lemma followPlayer_spec (deltaTime : R) (direction : Vector3) (w : World) (me : Model) :
  enemyModel w = Some me ->
  exists (current : string) (calls : list PlaybackCall),
    followPlayer deltaTime direction w =
      Returned (set_playback calls
                  (update_state Enemy (set_currentAnimation current)
                     (followed deltaTime direction me w))).
Proof.
  unfold enemyModel. intros Hmodel. unfold followPlayer, followed, enemyModel, enemyState.
  destruct w as [k p [[[] ? [] ? ? ? ? ? j ? ? ? ? ?] an am mx md] ob ti pb fr].
  simpl in *. subst md. destruct me as [[] ?]. records.
  match goal with |- context [positionAccepted ?a ?b] =>
    destruct (positionAccepted a b) end;
  match goal with |- context [setAnimation ?c ?n ?W] =>
    destruct (setAnimation_shape c n W) as (cur & calls & ->) end;
  records; eexists _, _; reflexivity.
Qed.

Lemma performAttack_shape (character : Character) (w : World) :
  exists (attacking : bool) (current : string) (calls : list PlaybackCall)
         (pending : list Timer),
    performAttack character w =
      Returned
        (set_timeouts pending
           (set_playback calls
              (update_state character
                 (fun s => set_currentAnimation current (set_isAttacking attacking s)) w))).
Proof.
  unfold performAttack.
  destruct (negb _).
  - exists (isAttacking (state (info character w))),
           (currentAnimation (state (info character w))), (playback w), (timeouts w).
    destruct w as [k [[] ? ? ? ?] [[] ? ? ? ?] o t p f], character; reflexivity.
  - match goal with |- context [setAnimation ?c ?n ?W] =>
      destruct (setAnimation_shape c n W) as (cur & calls & ->) end.
    eexists true, cur, calls, _.
    destruct w as [k [[] ? ? ? ?] [[] ? ? ? ?] o t p f], character; reflexivity.
Qed.

Lemma updateEnemy_cooldown (deltaTime : R) (w : World) :
  blocked w = false ->
  let distance :=
    THREE.length (THREE.subVectors (position (playerState w)) (position (enemyState w))) in
  let c := attackCooldown (enemyState w) in
  let c1 := if decide (distance < attackDistance (enemyState w))
            then (if decide (c <= 0) then 2 else c) else c in
  exists w',
    updateEnemy deltaTime w = Returned w' /\
    attackCooldown (enemyState w') = (if decide (c1 > 0) then c1 - deltaTime else c1).
Proof.
  unfold blocked. intros Hfree. unfold updateEnemy. rewrite Hfree.
  destruct (enemyModel w) as [me|] eqn:Hme; [|discriminate].
  cbv zeta.
  set (direction := THREE.subVectors _ _).
  set (distance := THREE.length direction).
  destruct (decide (distance < attackDistance (enemyState w))) as [Hnear|Hnear].
  - destruct (decide (attackCooldown (enemyState w) <= 0)) as [Hready|Hready].
    + destruct (performAttack_shape Enemy w) as (att & cur & calls & pend & ->).
      destruct w as [k p [[] ? ? ? ?] o t pb f]. records.
      destruct (decide (2 > 0)); [|lra].
      eexists. split; reflexivity.
    + records. destruct (decide _); eexists; split; reflexivity.
  - destruct (decide (distance < followDistance (enemyState w))).
    + destruct (followPlayer_spec deltaTime direction w me Hme) as (cur & calls & ->).
      unfold followed. clearbody direction distance.
      destruct w as [k p [[] ? ? ? ?] o t pb f]. records.
      destruct (decide _); eexists; split; reflexivity.
    + destruct (setAnimation_shape Enemy "IDLE" w) as (cur & calls & ->).
      clearbody direction distance.
      destruct w as [k p [[] ? ? ? ?] o t pb f]. records.
      destruct (decide _); eexists; split; reflexivity.
Qed.

Lemma updateEnemy_follows (deltaTime : R) (w : World) (me : Model) :
  blocked w = false ->
  enemyModel w = Some me ->
  let direction :=
    THREE.subVectors (position (playerState w)) (position (enemyState w)) in
  ~ THREE.length direction < attackDistance (enemyState w) ->
  THREE.length direction < followDistance (enemyState w) ->
  exists (current : string) (calls : list PlaybackCall) (cooldown : R),
    updateEnemy deltaTime w =
      Returned
        (update_state Enemy (set_attackCooldown cooldown)
           (set_playback calls
              (update_state Enemy (set_currentAnimation current)
                 (followed deltaTime direction me w)))).
Proof.
  unfold blocked. cbv zeta. intros Hfree Hme Hfar Hnear. unfold updateEnemy.
  rewrite Hfree. cbv zeta.
  set (direction := THREE.subVectors _ _) in *.
  destruct (decide (THREE.length direction < attackDistance (enemyState w)));
    [contradiction|].
  destruct (decide (THREE.length direction < followDistance (enemyState w)));
    [|contradiction].
  destruct (followPlayer_spec deltaTime direction w me Hme) as (cur & calls & ->).
  unfold followed. clearbody direction.
  destruct w as [k p [[] ? ? ? ? ] o t pb f]. records.
  destruct (decide _); eexists _, _, _; reflexivity.
Qed.

Lemma positionAccepted_spec (newPosX newPosZ : R) :
  positionAccepted newPosX newPosZ = true <->
  sqrt (newPosX * newPosX + newPosZ * newPosZ) > treeRadius /\
  Rabs newPosX < mapBoundary /\ Rabs newPosZ < mapBoundary.
Proof.
  unfold positionAccepted.
  rewrite !andb_true_iff, !bool_decide_eq_true. tauto.
Qed.

(** ** The player's speed *)

(** C4, as the code has it. In a tick that processes movement with W or S
    held, the planar velocity is the forward vector of the new heading times
    the speed times the direction: the speed is [runSpeed] exactly when
    Shift is held, whether or not a RUN animation is bound, and [moveSpeed]
    otherwise; the direction is -1 with W held and 1 with S alone, so the
    two keys give opposite signs. *)
Theorem planar_speed_follows_run_key (deltaTime : R) (w : World) (m : Model) :
  playerModel w = Some m ->
  isAttacking (playerState w) && negb (isJumping (playerState w)) = false ->
  key_w (keys w) || key_s (keys w) = true ->
  exists w',
    updatePlayer deltaTime w = Returned w' /\
    let s := playerState w in
    let s' := playerState w' in
    let currentSpeed := if key_shift (keys w) then runSpeed s else moveSpeed s in
    let direction := if key_w (keys w) then -1 else 1 in
    x (velocity s') = - sin (rotation_y s') * currentSpeed * direction /\
    z (velocity s') = - cos (rotation_y s') * currentSpeed * direction.
Proof.
  intros Hmodel Hfree Hkeys.
  destruct (updatePlayer_moves deltaTime w m Hmodel Hfree Hkeys)
    as (w' & Hrun & _ & Hvx & Hvz & _).
  exists w'. cbv zeta. auto.
Qed.

Lemma planar_speed_follows_run_key_witness :
  exists w', updatePlayer (1 / 10) sprinting = Returned w'.
Proof.
  destruct (planar_speed_follows_run_key (1 / 10) sprinting
              {| model_position := {| x := -8; y := 0; z := -8 |};
                 model_rotation_y := 0 |} eq_refl eq_refl eq_refl)
    as (w' & Hrun & _).
  exists w'. exact Hrun.
Defined.

(** C4 as stated fails: with Shift held and no RUN animation bound the
    player still moves at [runSpeed]. *)
Lemma run_speed_without_RUN_animation :
  playerAnimations sprinting !! "RUN" = None /\
  exists w',
    updatePlayer (1 / 10) sprinting = Returned w' /\
    x (velocity (playerState w')) = 0 /\
    z (velocity (playerState w')) = runSpeed (playerState sprinting) /\
    runSpeed (playerState sprinting) <> moveSpeed (playerState sprinting).
Proof.
  split; [vm_compute; reflexivity|].
  destruct (updatePlayer_moves (1 / 10) sprinting
              {| model_position := {| x := -8; y := 0; z := -8 |};
                 model_rotation_y := 0 |} eq_refl eq_refl eq_refl)
    as (w' & Hrun & Hrot & Hvx & Hvz & _).
  exists w'. split; [exact Hrun|].
  cbv zeta in Hrot, Hvx, Hvz. rewrite Hrot in Hvx, Hvz. clear Hrot Hrun.
  worlds. rewrite sin_0 in Hvx. rewrite cos_0 in Hvz.
  rewrite Hvx, Hvz.
  repeat split; lra.
Qed.

Lemma sqrt_at_least (a b : R) : 0 <= a -> a * a <= b -> a <= sqrt b.
Proof.
  intros Ha Hab. rewrite <- (sqrt_square a Ha). apply sqrt_le_1_alt, Hab.
Qed.

(** ** The enemy's attack cooldown *)

(** C5, as the code has it. A tick on which a model is missing or the enemy
    is attacking leaves everything, and so the cooldown, as it was. On any
    other tick, in every distance band, the cooldown (2 if an attack was
    just attempted) is decremented by the elapsed time when it is greater
    than zero and is left alone otherwise. *)
Theorem attackCooldown_decrement (deltaTime : R) (w : World) :
  (blocked w = true -> updateEnemy deltaTime w = Returned w) /\
  (blocked w = false ->
   let distance :=
     THREE.length (THREE.subVectors (position (playerState w)) (position (enemyState w))) in
   let c := attackCooldown (enemyState w) in
   let c1 := if decide (distance < attackDistance (enemyState w))
             then (if decide (c <= 0) then 2 else c) else c in
   exists w',
     updateEnemy deltaTime w = Returned w' /\
     attackCooldown (enemyState w') = (if decide (c1 > 0) then c1 - deltaTime else c1)).
Proof.
  split.
  - unfold blocked, updateEnemy. intros ->. reflexivity.
  - apply updateEnemy_cooldown.
Qed.

Lemma attackCooldown_decrement_witness :
  (blocked striking = true /\ updateEnemy 1 striking = Returned striking) /\
  (blocked arena = false /\ exists w', updateEnemy 1 arena = Returned w').
Proof.
  split; (split; [reflexivity|]).
  - apply (proj1 (attackCooldown_decrement 1 striking)). reflexivity.
  - destruct (proj2 (attackCooldown_decrement 1 arena) eq_refl) as (w' & Hrun & _).
    exists w'. exact Hrun.
Defined.

(** C5 as stated fails: the cooldown is not decremented while the enemy is
    attacking, nor once it is zero or less. *)
Lemma attackCooldown_not_always_decremented :
  (isAttacking (enemyState striking) = true /\
   attackCooldown (enemyState striking) = 2 /\
   updateEnemy 1 striking = Returned striking) /\
  (attackCooldown (enemyState arena) = 0 /\
   exists w',
     updateEnemy 1 arena = Returned w' /\
     attackCooldown (enemyState w') = 0).
Proof.
  split.
  - repeat split; reflexivity.
  - split; [reflexivity|].
    destruct (updateEnemy_cooldown 1 arena eq_refl) as (w' & Hrun & Hcool).
    exists w'. split; [exact Hrun|]. rewrite Hcool. clear.
    cbv zeta.
    destruct (decide (_ < attackDistance (enemyState arena))) as [Hnear|_].
    + exfalso. revert Hnear. worlds. intros Hnear.
      apply (Rlt_not_le _ _ Hnear). apply sqrt_at_least; lra.
    + worlds. destruct (decide (0 > 0)); [lra | reflexivity].
Qed.

(** ** Collisions *)

(** C6. For the player (a tick that processes movement with W or S held)
    and for the enemy (a tick on which it follows the player), the candidate
    position is the position before the tick plus the tick's velocity times
    the elapsed time, the velocity being the forward vector of the new
    heading times the speed the state and the keys before the tick select.
    If the candidate is farther than [treeRadius] from the origin and both
    its coordinates are smaller in magnitude than [mapBoundary], the planar
    position becomes the candidate; if not, the planar position is
    unchanged. *)
Theorem candidate_position_accepted_or_rejected (deltaTime : R) (w : World) :
  let verdict (newPosX newPosZ : R) (before after : Vector3) :=
    let clear :=
      sqrt (newPosX * newPosX + newPosZ * newPosZ) > treeRadius /\
      Rabs newPosX < mapBoundary /\ Rabs newPosZ < mapBoundary in
    (clear -> x after = newPosX /\ z after = newPosZ) /\
    (~ clear -> x after = x before /\ z after = z before) in
  (forall m : Model,
     playerModel w = Some m ->
     isAttacking (playerState w) && negb (isJumping (playerState w)) = false ->
     key_w (keys w) || key_s (keys w) = true ->
     let s := playerState w in
     let heading := turned deltaTime w m in
     let currentSpeed := if key_shift (keys w) then runSpeed s else moveSpeed s in
     let direction := if key_w (keys w) then -1 else 1 in
     let vx := - sin heading * currentSpeed * direction in
     let vz := - cos heading * currentSpeed * direction in
     exists w',
       updatePlayer deltaTime w = Returned w' /\
       verdict (x (position s) + vx * deltaTime) (z (position s) + vz * deltaTime)
               (position s) (position (playerState w'))) /\
  (forall me : Model,
     blocked w = false ->
     enemyModel w = Some me ->
     let toPlayer :=
       THREE.subVectors (position (playerState w)) (position (enemyState w)) in
     ~ THREE.length toPlayer < attackDistance (enemyState w) ->
     THREE.length toPlayer < followDistance (enemyState w) ->
     let s := enemyState w in
     let d := THREE.normalize toPlayer in
     let heading := smoothRotate (model_rotation_y me) (atan2 (x d) (z d)) deltaTime in
     let vx := - sin heading * moveSpeed s * -1 in
     let vz := - cos heading * moveSpeed s * -1 in
     exists w',
       updateEnemy deltaTime w = Returned w' /\
       verdict (x (position s) + vx * deltaTime) (z (position s) + vz * deltaTime)
               (position s) (position (enemyState w'))).
Proof.
  cbv zeta. split.
  - intros m Hmodel Hfree Hkeys.
    destruct (updatePlayer_moves deltaTime w m Hmodel Hfree Hkeys)
      as (w' & Hrun & Hrot & Hvx & Hvz & Hx & Hz).
    exists w'. split; [exact Hrun|]. cbv zeta in Hvx, Hvz, Hx, Hz.
    rewrite Hrot in Hvx, Hvz. rewrite Hvx, Hvz in Hx, Hz.
    rewrite Hx, Hz.
    match goal with |- context [positionAccepted ?a ?b] =>
      pose proof (positionAccepted_spec a b) as Hspec;
      destruct (positionAccepted a b) end.
    + split; [auto|]. intros Hno. exfalso. apply Hno, Hspec. reflexivity.
    + split; [|auto]. intros Hyes. apply Hspec in Hyes. discriminate.
  - intros me Hfree Hme Hfar Hnear.
    destruct (updateEnemy_follows deltaTime w me Hfree Hme Hfar Hnear)
      as (cur & calls & cool & Hrun).
    eexists. split; [exact Hrun|]. clear.
    set (toPlayer := THREE.subVectors _ _). clearbody toPlayer.
    unfold followed. cbv zeta.
    set (heading := smoothRotate _ _ _). clearbody heading.
    destruct w as [k p [[[] ? [] ? ? ? ? ? j ? ? ? ? ?] an am mx md] ob ti pb fr].
    records.
    match goal with |- context [positionAccepted ?a ?b] =>
      pose proof (positionAccepted_spec a b) as Hspec;
      destruct (positionAccepted a b) end.
    + split; [auto|]. intros Hno. exfalso. apply Hno, Hspec. reflexivity.
    + split; [|auto]. intros Hyes. apply Hspec in Hyes. discriminate.
Qed.

Lemma chase_distance :
  THREE.length (THREE.subVectors (position (playerState chase))
                                 (position (enemyState chase))) = 5.
Proof.
  worlds. transitivity (sqrt (5 * 5)); [f_equal; lra | apply sqrt_square; lra].
Qed.

Lemma candidate_position_accepted_or_rejected_witness :
  (exists w',
     updatePlayer (1 / 10) sprinting = Returned w' /\
     x (position (playerState w')) = -8 /\
     z (position (playerState w')) = -7) /\
  (exists w',
     updateEnemy (1 / 10) chase = Returned w' /\
     let d := THREE.normalize
                (THREE.subVectors (position (playerState chase))
                                  (position (enemyState chase))) in
     let heading := smoothRotate 0 (atan2 (x d) (z d)) (1 / 10) in
     x (position (enemyState w')) = 10 + - sin heading * 3 * -1 * (1 / 10) /\
     z (position (enemyState w')) = 10 + - cos heading * 3 * -1 * (1 / 10)).
Proof.
  split.
  - destruct (proj1 (candidate_position_accepted_or_rejected (1 / 10) sprinting)
                {| model_position := {| x := -8; y := 0; z := -8 |};
                   model_rotation_y := 0 |} eq_refl eq_refl eq_refl)
      as (w' & Hrun & Hclear & _).
    exists w'. split; [exact Hrun|].
    assert (Hvx : -8 + - sin 0 * 10 * -1 * (1 / 10) = -8) by (rewrite sin_0; lra).
    assert (Hvz : -8 + - cos 0 * 10 * -1 * (1 / 10) = -7) by (rewrite cos_0; lra).
    worlds. rewrite Hvx, Hvz in Hclear. apply Hclear.
    unfold treeRadius, mapBoundary. split; [|split].
    + apply Rlt_le_trans with 1; [lra|]. apply sqrt_at_least; lra.
    + unfold Rabs. destruct (Rcase_abs _); lra.
    + unfold Rabs. destruct (Rcase_abs _); lra.
  - pose proof chase_distance as Hd.
    assert (Hfar : ~ THREE.length
                       (THREE.subVectors (position (playerState chase))
                                         (position (enemyState chase)))
                     < attackDistance (enemyState chase)).
    { rewrite Hd. simpl. lra. }
    assert (Hnear : THREE.length
                       (THREE.subVectors (position (playerState chase))
                                         (position (enemyState chase)))
                     < followDistance (enemyState chase)).
    { rewrite Hd. simpl. lra. }
    destruct (proj2 (candidate_position_accepted_or_rejected (1 / 10) chase)
                {| model_position := {| x := 10; y := 0; z := 10 |};
                   model_rotation_y := 0 |} eq_refl eq_refl Hfar Hnear)
      as (w' & Hrun & Hclear & _).
    exists w'. split; [exact Hrun|]. cbv zeta.
    cbn [model_rotation_y] in Hclear.
    set (heading := smoothRotate 0 _ _) in *.
    pose proof (SIN_bound heading) as Hsin. pose proof (COS_bound heading) as Hcos.
    clearbody heading.
    change (moveSpeed (enemyState chase)) with 3 in Hclear.
    change (x (position (enemyState chase))) with 10 in Hclear.
    change (z (position (enemyState chase))) with 10 in Hclear.
    apply Hclear.
    unfold treeRadius, mapBoundary. split; [|split].
    + apply Rlt_le_trans with 1; [lra|]. apply sqrt_at_least; [lra|nra].
    + unfold Rabs. destruct (Rcase_abs _); lra.
    + unfold Rabs. destruct (Rcase_abs _); lra.
Defined.

(** ** The enemy's turn toward the player *)

Lemma Rmin_factor (deltaTime : R) :
  0 <= deltaTime -> 0 <= Rmin (3 * deltaTime) 1 <= 1.
Proof.
  intros Hdt. unfold Rmin. destruct (Rle_dec _ _); lra.
Qed.

(** One correction brings every difference between -3π and 3π into
    [-π, π]; none is applied twice. *)
Lemma wrapAngle_within (angleDiff : R) :
  - (3 * PI) <= angleDiff <= 3 * PI -> - PI <= wrapAngle angleDiff <= PI.
Proof.
  pose proof PI_RGT_0. intros Hd. unfold wrapAngle.
  repeat destruct (decide _); lra.
Qed.

Lemma wrapAngle_high (angleDiff : R) :
  angleDiff > PI -> wrapAngle angleDiff = angleDiff - PI * 2.
Proof.
  pose proof PI_RGT_0. intros Hd. unfold wrapAngle.
  repeat destruct (decide _); lra.
Qed.

Lemma wrapAngle_mid (angleDiff : R) :
  - PI <= angleDiff <= PI -> wrapAngle angleDiff = angleDiff.
Proof.
  pose proof PI_RGT_0. intros Hd. unfold wrapAngle.
  repeat destruct (decide _); lra.
Qed.

Lemma turn_high (currentAngle targetAngle : R) :
  targetAngle - currentAngle > PI ->
  smoothRotate currentAngle targetAngle 1 = targetAngle - PI * 2.
Proof.
  intros Hd. unfold smoothRotate. rewrite (wrapAngle_high _ Hd).
  unfold Rmin. destruct (Rle_dec _ _); lra.
Qed.

Lemma turn_mid (currentAngle targetAngle : R) :
  - PI <= targetAngle - currentAngle <= PI ->
  smoothRotate currentAngle targetAngle 1 = targetAngle.
Proof.
  intros Hd. unfold smoothRotate. rewrite (wrapAngle_mid _ Hd).
  unfold Rmin. destruct (Rle_dec _ _); lra.
Qed.

Lemma atan2_behind (y x : R) : y = 0 -> x < 0 -> atan2 y x = PI.
Proof.
  intros -> Hx. unfold atan2.
  destruct (decide (0 < x)); [lra|].
  destruct (decide (x < 0)); [|lra].
  destruct (decide (0 <= 0)); [|lra].
  replace (0 / x) with 0 by (unfold Rdiv; lra).
  rewrite atan_0. lra.
Qed.

Lemma updateEnemy_heading (deltaTime : R) (w : World) (me : Model) :
  blocked w = false ->
  enemyModel w = Some me ->
  let direction :=
    THREE.subVectors (position (playerState w)) (position (enemyState w)) in
  ~ THREE.length direction < attackDistance (enemyState w) ->
  THREE.length direction < followDistance (enemyState w) ->
  let d := THREE.normalize direction in
  exists w' me',
    updateEnemy deltaTime w = Returned w' /\
    enemyModel w' = Some me' /\
    rotation_y (enemyState w') = model_rotation_y me' /\
    model_rotation_y me' =
      smoothRotate (model_rotation_y me) (atan2 (x d) (z d)) deltaTime.
Proof.
  cbv zeta. intros Hfree Hme Hfar Hnear.
  destruct (updateEnemy_follows deltaTime w me Hfree Hme Hfar Hnear)
    as (cur & calls & cool & Hrun).
  clear Hfree Hfar Hnear. revert Hrun.
  set (direction := THREE.subVectors _ _). clearbody direction.
  unfold followed, enemyModel in *.
  destruct w as [k p [[[] ? [] ? ? ? ? ? j ? ? ? ? ?] an am mx md] ob ti pb fr].
  simpl in Hme. subst md. intros Hrun.
  eexists _, _. split; [exact Hrun|].
  records. repeat split; reflexivity.
Qed.

(** On a tick on which the enemy follows the player, with a non-negative
    elapsed time, the factor [min(3 * deltaTime, 1)] lies between 0 and 1
    and the new heading is the old one moved by that fraction of the way to
    the wrap-adjusted target, so it lies between the two. While the raw
    difference is at most 3π in magnitude the wrap-adjusted target is within
    π of the heading; beyond that it is not, see below. *)
Lemma updateEnemy_turn_bounded (deltaTime : R) (w : World) (me : Model) :
  0 <= deltaTime ->
  blocked w = false ->
  enemyModel w = Some me ->
  let direction :=
    THREE.subVectors (position (playerState w)) (position (enemyState w)) in
  ~ THREE.length direction < attackDistance (enemyState w) ->
  THREE.length direction < followDistance (enemyState w) ->
  let d := THREE.normalize direction in
  let currentAngle := model_rotation_y me in
  let adjusted := currentAngle + wrapAngle (atan2 (x d) (z d) - currentAngle) in
  exists w' me',
    updateEnemy deltaTime w = Returned w' /\
    enemyModel w' = Some me' /\
    let newAngle := model_rotation_y me' in
    0 <= Rmin (3 * deltaTime) 1 <= 1 /\
    newAngle = currentAngle + (adjusted - currentAngle) * Rmin (3 * deltaTime) 1 /\
    Rmin currentAngle adjusted <= newAngle <= Rmax currentAngle adjusted /\
    Rabs (adjusted - newAngle) <= Rabs (adjusted - currentAngle) /\
    (Rabs (atan2 (x d) (z d) - currentAngle) <= 3 * PI ->
     Rabs (adjusted - currentAngle) <= PI).
Proof.
  cbv zeta. intros Hdt Hfree Hme Hfar Hnear.
  destruct (updateEnemy_heading deltaTime w me Hfree Hme Hfar Hnear)
    as (w' & me' & Hrun & Hme' & _ & Hrot).
  exists w', me'. split; [exact Hrun|]. split; [exact Hme'|].
  rewrite Hrot. unfold smoothRotate.
  pose proof (Rmin_factor deltaTime Hdt) as Hf.
  set (f := Rmin (3 * deltaTime) 1) in *. clearbody f.
  set (c := model_rotation_y me).
  set (raw := atan2 _ _ - c).
  assert (Hwrap : Rabs raw <= 3 * PI -> Rabs (wrapAngle raw) <= PI).
  { intros Hraw. apply Rabs_le, wrapAngle_within.
    revert Hraw. unfold Rabs. destruct (Rcase_abs raw); lra. }
  set (D := wrapAngle raw) in *. clearbody D raw c.
  split; [exact Hf|]. split; [lra|]. split; [|split].
  - unfold Rmin, Rmax. destruct (Rle_dec c (c + D)); nra.
  - replace (c + D - (c + D * f)) with (D * (1 - f)) by lra.
    replace (c + D - c) with D by lra.
    rewrite Rabs_mult. rewrite (Rabs_pos_eq (1 - f)) by lra.
    pose proof (Rabs_pos D). nra.
  - intros Hraw. replace (c + D - c) with D by lra. apply Hwrap, Hraw.
Qed.

Lemma spun_distance :
  THREE.length (THREE.subVectors (position (playerState spun))
                                 (position (enemyState spun))) = 5.
Proof.
  worlds. transitivity (sqrt (5 * 5)); [f_equal; lra | apply sqrt_square; lra].
Qed.

(** C8 at the failing input. Following a player who walks around it (the
    directions -π/2, π, π/2, 0, -π/2 on five ticks of one second), the
    enemy's heading goes from 0 to -5π/2. With the player then in direction
    π, one tick turns the enemy by 3π/2, more than π: the single correction
    of the difference 7π/2 leaves 3π/2. *)
Theorem enemy_turns_the_long_way_round :
  fold_left (fun currentAngle targetAngle => smoothRotate currentAngle targetAngle 1)
    [- PI / 2; PI; PI / 2; 0; - PI / 2] 0 = - (5 * PI / 2) /\
  exists w' me',
    updateEnemy 1 spun = Returned w' /\
    enemyModel w' = Some me' /\
    model_rotation_y me' - - (5 * PI / 2) = 3 * PI / 2 /\
    3 * PI / 2 > PI.
Proof.
  pose proof PI_RGT_0 as Hpi. split.
  - cbn [fold_left].
    rewrite (turn_mid 0 (- PI / 2)) by lra.
    rewrite (turn_high (- PI / 2) PI) by lra.
    rewrite (turn_high (PI - PI * 2) (PI / 2)) by lra.
    rewrite (turn_high (PI / 2 - PI * 2) 0) by lra.
    rewrite (turn_high (0 - PI * 2) (- PI / 2)) by lra.
    lra.
  - pose proof spun_distance as Hd.
    assert (Hfar : ~ THREE.length
                       (THREE.subVectors (position (playerState spun))
                                         (position (enemyState spun)))
                     < attackDistance (enemyState spun)).
    { rewrite Hd. simpl. lra. }
    assert (Hnear : THREE.length
                       (THREE.subVectors (position (playerState spun))
                                         (position (enemyState spun)))
                     < followDistance (enemyState spun)).
    { rewrite Hd. simpl. lra. }
    destruct (updateEnemy_heading 1 spun
                {| model_position := {| x := 10; y := 0; z := 10 |};
                   model_rotation_y := - (5 * PI / 2) |} eq_refl eq_refl Hfar Hnear)
      as (w' & me' & Hrun & Hme' & _ & Hrot).
    exists w', me'. split; [exact Hrun|]. split; [exact Hme'|].
    split; [|lra]. rewrite Hrot. clear Hrot Hrun Hme' Hfar Hnear.
    unfold THREE.normalize. rewrite Hd.
    destruct (decide (5 = 0)); [lra|].
    cbn [x z model_rotation_y]. 
    rewrite atan2_behind.
    + rewrite turn_high by lra. lra.
    + worlds. unfold Rdiv. lra.
    + worlds. lra.
Qed.

(** C10 at the failing input. In the state reached above, with the
    enemy's heading at -5π/2 and the player in direction π, a tick of one
    ninth of a second has the factor 1/3 and moves the heading to -2π: the
    angular distance to the target grows from a quarter turn to a half turn.
    The difference 7π/2 is corrected once, to 3π/2, and the heading is moved
    a third of that way, away from the target on the circle. *)
Theorem smooth_rotation_increases_angular_distance :
  let d := THREE.normalize
             (THREE.subVectors (position (playerState spun))
                               (position (enemyState spun))) in
  let targetAngle := atan2 (x d) (z d) in
  0 <= 1 / 9 /\
  targetAngle = PI /\
  exists w' me',
    updateEnemy (1 / 9) spun = Returned w' /\
    enemyModel w' = Some me' /\
    model_rotation_y me' = - (2 * PI) /\
    angularDistance targetAngle (- (5 * PI / 2)) = PI / 2 /\
    angularDistance targetAngle (model_rotation_y me') = PI /\
    PI / 2 < PI.
Proof.
  pose proof PI_RGT_0 as Hpi. cbv zeta.
  pose proof spun_distance as Hd.
  assert (Htarget :
            atan2 (x (THREE.normalize
                        (THREE.subVectors (position (playerState spun))
                                          (position (enemyState spun)))))
                  (z (THREE.normalize
                        (THREE.subVectors (position (playerState spun))
                                          (position (enemyState spun))))) = PI).
  { unfold THREE.normalize. rewrite Hd.
    destruct (decide (5 = 0)); [lra|]. cbn [x z].
    apply atan2_behind; worlds; unfold Rdiv; lra. }
  rewrite Htarget. split; [lra|]. split; [reflexivity|].
  assert (Hfar : ~ THREE.length
                     (THREE.subVectors (position (playerState spun))
                                       (position (enemyState spun)))
                   < attackDistance (enemyState spun)).
  { rewrite Hd. simpl. lra. }
  assert (Hnear : THREE.length
                     (THREE.subVectors (position (playerState spun))
                                       (position (enemyState spun)))
                   < followDistance (enemyState spun)).
  { rewrite Hd. simpl. lra. }
  destruct (updateEnemy_heading (1 / 9) spun
              {| model_position := {| x := 10; y := 0; z := 10 |};
                 model_rotation_y := - (5 * PI / 2) |} eq_refl eq_refl Hfar Hnear)
    as (w' & me' & Hrun & Hme' & _ & Hrot).
  exists w', me'. split; [exact Hrun|]. split; [exact Hme'|].
  rewrite Htarget in Hrot. cbn [model_rotation_y] in Hrot.
  assert (Hnew : model_rotation_y me' = - (2 * PI)).
  { rewrite Hrot. unfold smoothRotate. rewrite wrapAngle_high by lra.
    unfold Rmin. destruct (Rle_dec _ _); lra. }
  split; [exact Hnew|]. rewrite Hnew. unfold angularDistance.
  split; [|split; [|lra]].
  - replace (PI - - (5 * PI / 2)) with (3 * (PI / 2) + 2 * INR 1 * PI)
      by (cbn [INR]; lra).
    rewrite cos_period, cos_3PI2. apply acos_0.
  - replace (PI - - (2 * PI)) with (PI + 2 * INR 1 * PI) by (cbn [INR]; lra).
    rewrite cos_period, cos_PI. replace (-1) with (- (1)) by lra.
    rewrite acos_opp, acos_1. lra.
Qed.

(** ** Jumps and the vertical position *)

Lemma grounded_vertical (w w' : World) :
  vertical w' = vertical w -> grounded w -> grounded w'.
Proof.
  unfold vertical, grounded. intros [= -> -> -> ->]. auto.
Qed.

Lemma movePlayer_idle (deltaTime : R) (flags : bool * bool) (w : World) :
  key_w (keys w) || key_s (keys w) = false ->
  movePlayer deltaTime flags w = Returned (w, flags).
Proof. intros Hkeys. unfold movePlayer. rewrite Hkeys. reflexivity. Qed.

(** The vertical part of one tick of the player. *)
Lemma updatePlayer_vertical (deltaTime : R) (w : World) (m : Model) :
  playerModel w = Some m ->
  isAttacking (playerState w) && negb (isJumping (playerState w)) = false ->
  exists w',
    updatePlayer deltaTime w = Returned w' /\
    enemy w' = enemy w /\
    let s := playerState w in
    let s' := playerState w' in
    (isJumping s = false ->
       isJumping s' = false /\ y (position s') = y (position s)) /\
    (isJumping s = true ->
       let vy1 := y (velocity s) - 9.8 * deltaTime in
       let py1 := y (position s) + vy1 * deltaTime in
       if decide (py1 <= 0)
       then isJumping s' = false /\ y (position s') = 0 /\ y (velocity s') = 0
       else isJumping s' = true /\ y (position s') = py1 /\ y (velocity s') = vy1).
Proof.
  intros Hmodel Hfree. unfold updatePlayer.
  rewrite Hmodel, Hfree. cbn [truthy negb].
  rewrite (rotatePlayer_spec deltaTime w m Hmodel).
  set (r := turned deltaTime w m). clearbody r.
  unfold playerModel, playerState in *.
  destruct w as [[kw ka ks kd ksp ksh kf]
                 [[[] ? [] ? ? ? ? ? j ? ? ? ? ?] an am mx md] en ob ti pb fr].
  simpl in *. subst md. destruct m as [[] ?]. records.
  match goal with |- context [jumpPlayer deltaTime ?W] =>
    destruct (jumpPlayer_spec deltaTime W _ eq_refl)
      as (py & vy & my & jumping & current & calls & flags & -> & Hground & Hjump) end.
  simpl in Hground, Hjump. records.
  destruct (kw || ks) eqn:Hkeys.
  - match goal with |- context [movePlayer deltaTime ?f ?W] =>
      rewrite (movePlayer_spec deltaTime f W _ eq_refl Hkeys) end.
    records.
    match goal with |- context [positionAccepted ?a ?b] =>
      destruct (positionAccepted a b) end; records.
    all: match goal with
         | |- context [if ?b then movementAnimation ?a1 ?a2 ?W else _] =>
             destruct b;
             [ destruct (movementAnimation_shape a1 a2 W) as (cur & calls' & ->) | ]
         end.
    all: records; eexists; (split; [reflexivity|]); records;
      (split; [reflexivity|]); split; [exact Hground | exact Hjump].
  - match goal with |- context [movePlayer deltaTime ?f ?W] =>
      rewrite (movePlayer_idle deltaTime f W Hkeys) end.
    destruct flags as [moving running]. records.
    match goal with
    | |- context [if ?b then movementAnimation ?a1 ?a2 ?W else _] =>
        destruct b;
        [ destruct (movementAnimation_shape a1 a2 W) as (cur & calls' & ->) | ]
    end.
    all: records; eexists; (split; [reflexivity|]); records;
      (split; [reflexivity|]); split; [exact Hground | exact Hjump].
Qed.

Lemma updatePlayer_grounded (deltaTime : R) (w w' : World) :
  updatePlayer deltaTime w = Returned w' -> grounded w -> grounded w'.
Proof.
  intros Hrun Hw.
  destruct (playerModel w) as [m|] eqn:Hmodel.
  2: { unfold updatePlayer in Hrun. rewrite Hmodel in Hrun.
       injection Hrun as <-. exact Hw. }
  destruct (isAttacking (playerState w) && negb (isJumping (playerState w))) eqn:Hfree.
  { unfold updatePlayer in Hrun. rewrite Hmodel, Hfree in Hrun.
    injection Hrun as <-. exact Hw. }
  destruct (updatePlayer_vertical deltaTime w m Hmodel Hfree)
    as (w1 & Hrun1 & Henemy & Hground & Hjump).
  rewrite Hrun in Hrun1. injection Hrun1 as <-.
  destruct Hw as (Hp & He & Hy). unfold grounded, enemyState. rewrite Henemy.
  split; [|split; assumption].
  cbv zeta in Hground, Hjump.
  destruct (isJumping (playerState w)) eqn:Hj.
  - specialize (Hjump eq_refl). destruct (decide _).
    + intros _. apply Hjump.
    + intros Hno. destruct Hjump as (Hyes & _). congruence.
  - destruct (Hground eq_refl) as (_ & ->). intros _. auto.
Qed.

Lemma setAnimation_vertical (character : Character) (animationName : string)
    (w w' : World) :
  setAnimation character animationName w = Returned w' -> vertical w' = vertical w.
Proof.
  destruct (setAnimation_shape character animationName w) as (cur & calls & ->).
  intros [= <-]. destruct character; reflexivity.
Qed.

Lemma performAttack_vertical (character : Character) (w w' : World) :
  performAttack character w = Returned w' -> vertical w' = vertical w.
Proof.
  destruct (performAttack_shape character w) as (att & cur & calls & pend & ->).
  intros [= <-]. destruct character; reflexivity.
Qed.

Lemma attackTimeout_vertical (t : Timer) (w w' : World) :
  attackTimeout t w = Returned w' -> vertical w' = vertical w.
Proof.
  unfold attackTimeout.
  assert (Hoff : vertical (update_state (timer_character t) (set_isAttacking false) w)
                 = vertical w) by (destruct (timer_character t); reflexivity).
  destruct (truthy _).
  - intros Hset. apply setAnimation_vertical in Hset. congruence.
  - intros [= <-]. exact Hoff.
Qed.

Lemma performJump_grounded (w w' : World) :
  performJump Player w = Returned w' -> grounded w -> grounded w'.
Proof.
  unfold performJump. simpl info.
  destruct (isJumping (state (player w))) eqn:Hj.
  { intros [= <-]. auto. }
  set (w1 := update_state Player _ (update_state Player _ w)).
  assert (Hw1 : grounded w -> grounded w1).
  { unfold grounded. intros (_ & He & Hy). split; [discriminate|]. auto. }
  destruct (truthy _).
  - intros Hset Hw. apply setAnimation_vertical in Hset.
    apply (grounded_vertical _ _ Hset), Hw1, Hw.
  - intros [= <-]. exact Hw1.
Qed.

Lemma updateEnemy_vertical (deltaTime : R) (w w' : World) :
  updateEnemy deltaTime w = Returned w' -> vertical w' = vertical w.
Proof.
  unfold updateEnemy.
  destruct (negb (truthy (enemyModel w)) || negb (truthy (playerModel w))
            || isAttacking (enemyState w)) eqn:Hfree.
  { intros [= <-]. reflexivity. }
  destruct (enemyModel w) as [me|] eqn:Hme; [|discriminate].
  cbv zeta.
  set (direction := THREE.subVectors _ _).
  set (distance := THREE.length direction).
  clearbody direction distance.
  assert (Hcool : forall w1 : World,
            vertical (update_state Enemy
                        (fun s => set_attackCooldown (attackCooldown s - deltaTime) s) w1)
            = vertical w1) by reflexivity.
  assert (Hend : forall w1 : World,
            vertical w1 = vertical w ->
            (if decide (attackCooldown (enemyState w1) > 0)
             then Returned (update_state Enemy
                    (fun s => set_attackCooldown (attackCooldown s - deltaTime) s) w1)
             else Returned w1) = Returned w' ->
            vertical w' = vertical w).
  { intros w1 Hw1. destruct (decide _); intros [= <-];
      [exact (eq_trans (Hcool w1) Hw1) | exact Hw1]. }
  destruct (decide (distance < attackDistance (enemyState w))).
  - destruct (decide (attackCooldown (enemyState w) <= 0)).
    + destruct (performAttack Enemy w) as [w1|] eqn:Hattack;
        cbv [mbind Res_bind]; [|discriminate].
      apply performAttack_vertical in Hattack.
      apply Hend. rewrite <- Hattack. reflexivity.
    + apply Hend. reflexivity.
  - destruct (decide (distance < followDistance (enemyState w))).
    + destruct (followPlayer_spec deltaTime direction w me Hme) as (cur & calls & ->).
      apply Hend. unfold followed.
      destruct (positionAccepted _ _); reflexivity.
    + destruct (setAnimation Enemy "IDLE" w) as [w1|] eqn:Hset;
        cbv [mbind Res_bind]; [|discriminate].
      apply setAnimation_vertical in Hset. apply Hend, Hset.
Qed.

Lemma builtinClip_state (character c' : Character) (m : Mixer) (w : World) (c : Clip) :
  state (info c' (builtinClip character m w c)) = state (info c' w).
Proof.
  unfold builtinClip.
  repeat match goal with |- context [if ?b then _ else _] => destruct b end;
    destruct character, c'; reflexivity.
Qed.

Lemma builtinLoaded_vertical (character : Character) (clips : list Clip) (w w' : World) :
  builtinLoaded character clips w = Returned w' -> vertical w' = vertical w.
Proof.
  unfold builtinLoaded.
  set (w0 := set_info character (set_mixer _ _) _).
  assert (Hw0 : forall c', state (info c' w0) = state (info c' w))
    by (intros []; destruct character; reflexivity).
  clearbody w0.
  assert (Hfold : forall c', state (info c' (foldl (builtinClip character (fresh
            (set_info character
               (set_model
                  (Some {| model_position := position (state (info character w));
                           model_rotation_y := rotation_y (state (info character w)) |})
                  (info character w)) w))) w0 clips)) = state (info c' w)).
  { revert w0 Hw0. induction clips as [|c clips IH]; intros w0 Hw0 c'; simpl.
    - apply Hw0.
    - apply IH. intros c''. rewrite builtinClip_state. apply Hw0. }
  set (w1 := foldl _ _ _) in *. clearbody w1.
  pose proof (Hfold Player) as Hp. pose proof (Hfold Enemy) as He. simpl in Hp, He.
  destruct (animationsOf character w1 !! "IDLE"); intros [= <-];
    unfold vertical, playerState, enemyState; simpl; rewrite Hp, He; reflexivity.
Qed.

Lemma processClip_state (character c' : Character) (mx : option Mixer)
    (w w' : World) (found found' : bool) (c : Clip) :
  processClip character mx (w, found) c = Returned (w', found') ->
  state (info c' w') = state (info c' w).
Proof.
  unfold processClip.
  repeat match goal with |- context [if ?b then _ else _] => destruct b end;
    destruct mx; cbv [mbind Res_bind member]; intros Heq; simplify_eq;
    destruct character, c'; reflexivity.
Qed.

Lemma forEach_processClip_state (character c' : Character) (mx : option Mixer)
    (clips : list Clip) (w w' : World) (found found' : bool) :
  forEach (processClip character mx) (w, found) clips = Returned (w', found') ->
  state (info c' w') = state (info c' w).
Proof.
  revert w found. induction clips as [|c clips IH]; intros w found; cbn [forEach].
  - intros [= <- <-]. reflexivity.
  - destruct (processClip character mx (w, found) c) as [[w1 found1]|] eqn:Hclip;
      cbv [mbind Res_bind]; [|discriminate].
    intros Hrest. rewrite (IH _ _ Hrest).
    apply (processClip_state _ _ _ _ _ _ _ _ Hclip).
Qed.

Lemma processModelAnimations_vertical (clips : list Clip) (character : Character)
    (w w' : World) :
  processModelAnimations clips character w = Returned w' -> vertical w' = vertical w.
Proof.
  unfold processModelAnimations.
  destruct (forEach _ _ _) as [[w1 found]|] eqn:Hloop;
    cbv [mbind Res_bind]; [|discriminate].
  pose proof (forEach_processClip_state _ Player _ _ _ _ _ _ Hloop) as Hp.
  pose proof (forEach_processClip_state _ Enemy _ _ _ _ _ _ Hloop) as He.
  simpl in Hp, He.
  assert (Hw1 : vertical w1 = vertical w).
  { unfold vertical, playerState, enemyState. rewrite Hp, He. reflexivity. }
  simpl. destruct found; [|intros [= <-]; exact Hw1].
  destruct (animationsOf character w1 !! "IDLE"); [|intros [= <-]; exact Hw1].
  destruct (mixer (info character w)); simpl; [|discriminate].
  intros [= <-]. rewrite <- Hw1. destruct character; reflexivity.
Qed.

Lemma customLoaded_vertical (character : Character) (oldModel : bool)
    (clips : list Clip) (w w' : World) :
  customLoaded character oldModel clips w = Returned w' -> vertical w' = vertical w.
Proof.
  unfold customLoaded. intros Hrun.
  apply processModelAnimations_vertical in Hrun. rewrite Hrun.
  destruct oldModel, (mixer (info character w)), character; reflexivity.
Qed.

Ltac unchanged := intros [= <-]; apply grounded_vertical; reflexivity.

Lemma handle_grounded (e : Event) (w w' : World) :
  handle e w = Returned w' -> grounded w -> grounded w'.
Proof.
  destruct e as [c clips|k|k| |dt|n| |c old clips]; cbn [handle].
  - intros Hrun. apply builtinLoaded_vertical in Hrun.
    apply grounded_vertical, Hrun.
  - destruct k; cbn [keydown]; cbv zeta; try (unchanged).
    + destruct (_ && _); [|unchanged].
      intros Hrun Hw. apply (performJump_grounded _ _ Hrun). exact Hw.
    + destruct (_ && _); [|unchanged].
      intros Hrun. apply performAttack_vertical in Hrun.
      apply grounded_vertical. rewrite Hrun. reflexivity.
  - destruct k; cbn [keyup]; unchanged.
  - unfold click. destruct (_ && _); [|unchanged].
    intros Hrun. apply performAttack_vertical in Hrun.
    apply grounded_vertical, Hrun.
  - unfold animate.
    set (w1 := match mixer (enemy _) with Some _ => _ | None => _ end).
    assert (Hw1 : vertical w1 = vertical w).
    { subst w1. destruct (mixer (player w)), (mixer (enemy _)); reflexivity. }
    clearbody w1.
    destruct (updatePlayer dt w1) as [w2|] eqn:Hplayer;
      cbv [mbind Res_bind]; [|discriminate].
    intros Henemy Hw. apply updateEnemy_vertical in Henemy.
    apply (grounded_vertical _ _ Henemy), (updatePlayer_grounded _ _ _ Hplayer),
      (grounded_vertical _ _ Hw1), Hw.
  - unfold fireTimeout. destruct (timeouts w !! n) as [t|]; [|unchanged].
    intros Hrun. apply attackTimeout_vertical in Hrun.
    apply grounded_vertical. rewrite Hrun. reflexivity.
  - intros [= <-]. apply grounded_vertical. reflexivity.
  - intros Hrun. apply customLoaded_vertical in Hrun.
    apply grounded_vertical, Hrun.
Qed.

Lemma airborne_reachable : reachable airborne.
Proof.
  apply (reachable_step (Keydown KeySpace) arena); [apply arena_reachable|].
  vm_compute. reflexivity.
Qed.

(** C7. In every state the program can reach, a player who is not jumping
    is at height 0, and the enemy, which never jumps, is at height 0. When a
    tick integrates a jump and the new height is 0 or less, that same tick
    leaves the height at 0, the vertical velocity at 0 and [isJumping]
    false. *)
Theorem vertical_position_consistent :
  (forall w : World, reachable w -> grounded w) /\
  (forall (deltaTime : R) (w : World) (m : Model),
     playerModel w = Some m ->
     isJumping (playerState w) = true ->
     let s := playerState w in
     y (position s) + (y (velocity s) - 9.8 * deltaTime) * deltaTime <= 0 ->
     exists w',
       updatePlayer deltaTime w = Returned w' /\
       y (position (playerState w')) = 0 /\
       y (velocity (playerState w')) = 0 /\
       isJumping (playerState w') = false).
Proof.
  split.
  - intros w Hw. induction Hw as [|e w w' _ IH Hstep].
    + repeat split; reflexivity.
    + apply (handle_grounded e w w' Hstep IH).
  - intros deltaTime w m Hmodel Hj s Hland. subst s.
    assert (Hfree : isAttacking (playerState w) && negb (isJumping (playerState w)) = false)
      by (rewrite Hj; apply andb_false_r).
    destruct (updatePlayer_vertical deltaTime w m Hmodel Hfree)
      as (w' & Hrun & _ & _ & Hjump).
    exists w'. split; [exact Hrun|].
    specialize (Hjump Hj). cbv zeta in Hjump.
    destruct (decide _); [|contradiction].
    tauto.
Qed.

Lemma vertical_position_consistent_witness :
  grounded airborne /\
  exists w',
    updatePlayer 2 airborne = Returned w' /\
    y (position (playerState w')) = 0 /\
    isJumping (playerState w') = false.
Proof.
  split.
  - apply (proj1 vertical_position_consistent airborne airborne_reachable).
  - assert (Hland : y (position (playerState airborne))
                    + (y (velocity (playerState airborne)) - 9.8 * 2) * 2 <= 0).
    { worlds. lra. }
    destruct (proj2 vertical_position_consistent 2 airborne
                {| model_position := {| x := -8; y := 0; z := -8 |};
                   model_rotation_y := 0 |} eq_refl eq_refl Hland)
      as (w' & Hrun & Hy & _ & Hj).
    exists w'. auto.
Defined.

(** * Further properties *)

(** ** Every handler as a sequence of steps *)

Lemma updatePlayer_ticked (deltaTime : R) (w : World) (m : Model) :
  playerModel w = Some m ->
  isAttacking (playerState w) && negb (isJumping (playerState w)) = false ->
  exists (current : string) (calls : list PlaybackCall),
    updatePlayer deltaTime w =
      Returned (set_playback calls
                  (update_state Player (set_currentAnimation current)
                     (ticked deltaTime m w))).
Proof.
  intros Hmodel Hfree. unfold updatePlayer.
  rewrite Hmodel, Hfree. cbn [truthy negb].
  rewrite (rotatePlayer_spec deltaTime w m Hmodel).
  unfold ticked.
  set (r := turned deltaTime w m). clearbody r.
  unfold playerModel, playerState, jumpPlayer, movePlayer, bool_decide,
    playerModel, playerState in *.
  destruct w as [[kw ka ks kd ksp ksh kf]
                 [[[] ? [] ? ? ? ? ? j ? ? ? ? ?] an am mx md] en ob ti pb fr].
  simpl in *. subst md. destruct m as [[] ?]. clear Hfree.
  destruct j; records; cbv [decide decide_rel].
  - match goal with |- context [Rle_decision ?a 0] => destruct (Rle_decision a 0) end.
    + destruct (kw || ks) eqn:Hkeys; records;
        match goal with |- context [movementAnimation ?a ?b ?W] =>
          destruct (movementAnimation_shape a b W) as (cur & calls & ->) end;
        records; rewrite ?Hkeys; records;
        try (match goal with |- context [positionAccepted ?a ?b] =>
               destruct (positionAccepted a b) end; records);
        match goal with
        | |- context [if ?b then movementAnimation ?a1 ?a2 ?W else _] =>
            destruct b;
            [ destruct (movementAnimation_shape a1 a2 W) as (cur' & calls' & ->) | ]
        end; records; cbn [andb negb]; eexists _, _; reflexivity.
    + destruct (kw || ks) eqn:Hkeys; records;
        try (match goal with |- context [positionAccepted ?a ?b] =>
               destruct (positionAccepted a b) end; records);
        match goal with
        | |- context [if ?b then movementAnimation ?a1 ?a2 ?W else _] =>
            destruct b;
            [ destruct (movementAnimation_shape a1 a2 W) as (cur' & calls' & ->) | ]
        end; records; cbn [andb negb]; eexists _, _; reflexivity.
  - destruct (kw || ks) eqn:Hkeys; records;
      try (match goal with |- context [positionAccepted ?a ?b] =>
             destruct (positionAccepted a b) end; records);
      match goal with
      | |- context [if ?b then movementAnimation ?a1 ?a2 ?W else _] =>
          destruct b;
          [ destruct (movementAnimation_shape a1 a2 W) as (cur' & calls' & ->) | ]
      end; records; cbn [andb negb]; eexists _, _; reflexivity.
Qed.

Lemma log_effect (p : PlaybackCall) (w : World) : rtc effect w (log p w).
Proof. apply rtc_once, (effect_playback (p :: playback w)). Qed.

Lemma animation_playback_effects (character : Character) (current : string)
    (calls : list PlaybackCall) (w : World) :
  rtc effect w
    (set_playback calls (update_state character (set_currentAnimation current) w)).
Proof.
  eapply rtc_l; [apply (effect_animation character current)|].
  apply rtc_once, effect_playback.
Qed.

Lemma setAnimation_effects (character : Character) (animationName : string)
    (w w' : World) :
  setAnimation character animationName w = Returned w' -> rtc effect w w'.
Proof.
  destruct (setAnimation_shape character animationName w) as (cur & calls & ->).
  intros [= <-]. apply (animation_playback_effects character cur calls w).
Qed.

Lemma movementAnimation_effects (moving running : bool) (w w' : World) :
  movementAnimation moving running w = Returned w' -> rtc effect w w'.
Proof.
  destruct (movementAnimation_shape moving running w) as (cur & calls & ->).
  intros [= <-]. apply (animation_playback_effects Player cur calls w).
Qed.

Lemma performAttack_effects (character : Character) (w w' : World) :
  isAttacking (state (info character w)) = false ->
  (character = Player -> isJumping (playerState w) = false) ->
  performAttack character w = Returned w' -> rtc effect w w'.
Proof.
  intros Hidle Hground. unfold performAttack.
  destruct (animationsOf character w !! "ATTACK") as [a|] eqn:Hbound; cbn [truthy negb].
  2: { intros [= <-]. apply rtc_refl. }
  destruct (setAnimation_shape character "ATTACK"
              (update_state character (set_isAttacking true) w))
    as (cur & calls & ->).
  cbv [mbind Res_bind]. intros [= <-].
  eapply rtc_l; [apply (effect_attack character a w Hbound Hidle Hground)|].
  eapply rtc_l; [apply (effect_animation character cur)|].
  eapply rtc_l; [apply (effect_playback calls)|].
  unfold attackTimer. destruct character; apply rtc_refl.
Qed.

Lemma fireTimeout_effects (n : nat) (w w' : World) :
  fireTimeout n w = Returned w' -> rtc effect w w'.
Proof.
  unfold fireTimeout.
  destruct (timeouts w !! n) as [t|] eqn:Hn; [|intros [= <-]; apply rtc_refl].
  unfold attackTimeout.
  set (w1 := update_state (timer_character t) (set_isAttacking false)
               (set_timeouts (delete n (timeouts w)) w)).
  assert (Hw1 : rtc effect w w1) by apply rtc_once, (effect_release n t w Hn).
  destruct (truthy _).
  - intros Hset. apply setAnimation_effects in Hset.
    eapply rtc_trans; [exact Hw1 | exact Hset].
  - intros [= <-]. exact Hw1.
Qed.

Lemma performJump_effects (w w' : World) :
  isJumping (playerState w) = false ->
  isAttacking (playerState w) = false ->
  performJump Player w = Returned w' -> rtc effect w w'.
Proof.
  intros Hground Hidle. unfold performJump. cbn [info].
  unfold playerState in Hground. rewrite Hground.
  set (w1 := update_state Player _ (update_state Player _ w)).
  assert (Hw1 : rtc effect w w1) by apply rtc_once, (effect_jump w Hground Hidle).
  destruct (truthy _).
  - intros Hset. apply setAnimation_effects in Hset.
    eapply rtc_trans; [exact Hw1 | exact Hset].
  - intros [= <-]. exact Hw1.
Qed.

Lemma updatePlayer_effects (deltaTime : R) (w w' : World) :
  updatePlayer deltaTime w = Returned w' -> rtc effect w w'.
Proof.
  destruct (playerModel w) as [m|] eqn:Hmodel.
  2: { unfold updatePlayer. rewrite Hmodel. intros [= <-]. apply rtc_refl. }
  destruct (isAttacking (playerState w) && negb (isJumping (playerState w))) eqn:Hfree.
  { unfold updatePlayer. rewrite Hmodel, Hfree. intros [= <-]. apply rtc_refl. }
  destruct (updatePlayer_ticked deltaTime w m Hmodel Hfree) as (cur & calls & ->).
  intros [= <-].
  eapply rtc_l; [apply (effect_player deltaTime m w Hmodel Hfree)|].
  apply (animation_playback_effects Player cur calls).
Qed.

Lemma updateEnemy_effects (deltaTime : R) (w w' : World) :
  updateEnemy deltaTime w = Returned w' -> rtc effect w w'.
Proof.
  unfold updateEnemy.
  destruct (negb (truthy (enemyModel w)) || negb (truthy (playerModel w))
            || isAttacking (enemyState w)) eqn:Hfree.
  { intros [= <-]. apply rtc_refl. }
  destruct (enemyModel w) as [me|] eqn:Hme; [|discriminate].
  destruct (isAttacking (enemyState w)) eqn:Hidle;
    [rewrite orb_true_r in Hfree; discriminate|].
  cbv zeta.
  set (direction := THREE.subVectors _ _).
  set (distance := THREE.length direction).
  clearbody direction distance.
  assert (Hend : forall w1 : World,
            rtc effect w w1 ->
            (if decide (attackCooldown (enemyState w1) > 0)
             then Returned (update_state Enemy
                    (fun s => set_attackCooldown (attackCooldown s - deltaTime) s) w1)
             else Returned w1) = Returned w' ->
            rtc effect w w').
  { intros w1 Hw1. destruct (decide _); intros [= <-]; [|exact Hw1].
    eapply rtc_r; [exact Hw1|].
    apply (effect_cooldown (attackCooldown (enemyState w1) - deltaTime)). }
  destruct (decide (distance < attackDistance (enemyState w))).
  - destruct (decide (attackCooldown (enemyState w) <= 0)).
    + destruct (performAttack Enemy w) as [w1|] eqn:Hattack;
        cbv [mbind Res_bind]; [|discriminate].
      apply performAttack_effects in Hattack; [|exact Hidle|discriminate].
      apply Hend. eapply rtc_r; [exact Hattack|]. apply effect_cooldown.
    + apply Hend, rtc_refl.
  - destruct (decide (distance < followDistance (enemyState w))).
    + destruct (followPlayer_spec deltaTime direction w me Hme) as (cur & calls & ->).
      apply Hend.
      eapply rtc_l; [apply (effect_follow deltaTime direction me w Hme)|].
      apply (animation_playback_effects Enemy cur calls).
    + destruct (setAnimation Enemy "IDLE" w) as [w1|] eqn:Hset;
        cbv [mbind Res_bind]; [|discriminate].
      apply setAnimation_effects in Hset. apply Hend, Hset.
Qed.

Lemma builtinClip_effects (character : Character) (m : Mixer) (w : World) (c : Clip) :
  rtc effect w (builtinClip character m w c).
Proof.
  unfold builtinClip.
  destruct (_ && _); [apply rtc_once, (effect_bind character Idle)|].
  destruct (_ && _); [apply rtc_once, (effect_bind character Attack)|].
  destruct (_ && _); [apply rtc_once, (effect_bind character Walk)|].
  apply rtc_refl.
Qed.

Lemma foldl_builtinClip_effects (character : Character) (m : Mixer)
    (clips : list Clip) (w : World) :
  rtc effect w (foldl (builtinClip character m) w clips).
Proof.
  revert w. induction clips as [|c clips IH]; intros w; simpl.
  - apply rtc_refl.
  - eapply rtc_trans; [apply builtinClip_effects | apply IH].
Qed.

Lemma model_mixer_effects (character : Character) (w : World) :
  rtc effect w
    (set_info character
       (set_mixer (Some (fresh w))
          (info character
             (set_fresh (S (fresh w))
                (set_info character
                   (set_model
                      (Some {| model_position := position (state (info character w));
                               model_rotation_y := rotation_y (state (info character w)) |})
                      (info character w)) w))))
       (set_fresh (S (fresh w))
          (set_info character
             (set_model
                (Some {| model_position := position (state (info character w));
                         model_rotation_y := rotation_y (state (info character w)) |})
                (info character w)) w))).
Proof.
  eapply rtc_l; [apply (effect_model character)|].
  eapply rtc_l; [apply (effect_mixer character)|].
  destruct character; apply rtc_refl.
Qed.

Lemma builtinLoaded_effects (character : Character) (clips : list Clip) (w w' : World) :
  builtinLoaded character clips w = Returned w' -> rtc effect w w'.
Proof.
  unfold builtinLoaded. cbv zeta.
  set (w1 := set_info character (set_mixer _ _) _).
  assert (Hw1 : rtc effect w w1).
  { subst w1. eapply rtc_trans; [apply (model_mixer_effects character w)|].
    destruct character; apply rtc_refl. }
  set (m := fresh _). clearbody m w1.
  pose proof (foldl_builtinClip_effects character m clips w1) as Hfold.
  set (w2 := foldl _ _ _) in *. clearbody w2.
  destruct (animationsOf character w2 !! "IDLE"); intros [= <-].
  - eapply rtc_trans; [exact Hw1|].
    eapply rtc_trans; [exact Hfold | apply log_effect].
  - eapply rtc_trans; [exact Hw1 | exact Hfold].
Qed.

Lemma bind_log_effects (character : Character) (r : Role) (c : Clip) (m : Mixer)
    (w : World) (calls : list PlaybackCall) :
  rtc effect w
    (set_playback calls
       (set_animation character (roleName r) (clipAction m c)
          (update_animationMap character (set_entry r (bound c)) w))).
Proof.
  eapply rtc_l; [apply (effect_bind character r c m)|].
  apply rtc_once, effect_playback.
Qed.

Lemma processClip_effects (character : Character) (mx : option Mixer)
    (w w' : World) (found found' : bool) (c : Clip) :
  processClip character mx (w, found) c = Returned (w', found') -> rtc effect w w'.
Proof.
  unfold processClip.
  destruct (_ || _).
  { destruct mx as [m|]; cbv [mbind Res_bind member]; intros Heq; simplify_eq.
    apply (bind_log_effects character Idle c m w). }
  destruct (includes _ "WALK").
  { destruct mx as [m|]; cbv [mbind Res_bind member]; intros Heq; simplify_eq.
    apply (bind_log_effects character Walk c m w). }
  destruct (_ || _).
  { destruct mx as [m|]; cbv [mbind Res_bind member]; intros Heq; simplify_eq.
    apply (bind_log_effects character Run c m w). }
  destruct (_ || _).
  { destruct mx as [m|]; cbv [mbind Res_bind member]; intros Heq; simplify_eq.
    apply (bind_log_effects character Jump c m w). }
  destruct (_ || _).
  { destruct mx as [m|]; cbv [mbind Res_bind member]; intros Heq; simplify_eq.
    apply (bind_log_effects character Attack c m w). }
  intros Heq; simplify_eq. apply rtc_refl.
Qed.

Lemma forEach_processClip_effects (character : Character) (mx : option Mixer)
    (clips : list Clip) (w w' : World) (found found' : bool) :
  forEach (processClip character mx) (w, found) clips = Returned (w', found') ->
  rtc effect w w'.
Proof.
  revert w found. induction clips as [|c clips IH]; intros w found; cbn [forEach].
  - intros [= <- <-]. apply rtc_refl.
  - destruct (processClip character mx (w, found) c) as [[w1 found1]|] eqn:Hclip;
      cbv [mbind Res_bind]; [|discriminate].
    intros Hrest. eapply rtc_trans.
    + apply (processClip_effects _ _ _ _ _ _ _ Hclip).
    + apply (IH _ _ Hrest).
Qed.

Lemma processModelAnimations_effects (clips : list Clip) (character : Character)
    (w w' : World) :
  processModelAnimations clips character w = Returned w' -> rtc effect w w'.
Proof.
  unfold processModelAnimations.
  destruct (forEach _ _ _) as [[w1 found]|] eqn:Hloop;
    cbv [mbind Res_bind]; [|discriminate].
  apply forEach_processClip_effects in Hloop.
  destruct found; [|intros [= <-]; exact Hloop].
  destruct (animationsOf character w1 !! "IDLE"); [|intros [= <-]; exact Hloop].
  destruct (mixer (info character w)); cbv [member]; [|discriminate].
  intros [= <-]. eapply rtc_trans; [exact Hloop|].
  eapply rtc_l; [apply (effect_playback (play a :: stopAllAction m :: playback w1))|].
  eapply rtc_l; [apply (effect_animation character "IDLE")|].
  destruct character; apply rtc_refl.
Qed.

Lemma customLoaded_effects (character : Character) (oldModel : bool)
    (clips : list Clip) (w w' : World) :
  customLoaded character oldModel clips w = Returned w' -> rtc effect w w'.
Proof.
  unfold customLoaded. cbv zeta. intros Hrun.
  apply processModelAnimations_effects in Hrun.
  eapply rtc_trans; [|exact Hrun]. clear Hrun.
  set (w0 := if oldModel then _ else w).
  assert (Hw0 : rtc effect w w0).
  { subst w0. destruct oldModel; [|apply rtc_refl].
    destruct (mixer (info character w)); [|apply rtc_refl].
    apply (rtc_once _ _ (effect_playback _ w)). }
  assert (Hs : state (info character w0) = state (info character w)).
  { subst w0. destruct oldModel; [|reflexivity].
    destruct (mixer (info character w)), character; reflexivity. }
  clearbody w0. eapply rtc_trans; [exact Hw0|].
  rewrite <- Hs.
  eapply rtc_l; [apply (effect_model character)|].
  eapply rtc_l; [apply (effect_animation character "NONE")|].
  eapply rtc_l; [apply (effect_mixer character)|].
  destruct character; apply rtc_refl.
Qed.

Lemma keys_effect (f : Keys -> Keys) (w : World) : rtc effect w (update_keys f w).
Proof. apply rtc_once, effect_keys. Qed.

Lemma animate_effects (deltaTime : R) (w w' : World) :
  animate deltaTime w = Returned w' -> rtc effect w w'.
Proof.
  unfold animate.
  set (w1 := match mixer (enemy _) with Some _ => _ | None => _ end).
  assert (Hw1 : rtc effect w w1).
  { subst w1. destruct (mixer (player w)) as [mp|].
    - eapply rtc_trans; [apply (log_effect (update mp deltaTime))|].
      destruct (mixer (enemy _)); [apply log_effect | apply rtc_refl].
    - destruct (mixer (enemy _)); [apply log_effect | apply rtc_refl]. }
  clearbody w1.
  destruct (updatePlayer deltaTime w1) as [w2|] eqn:Hplayer;
    cbv [mbind Res_bind]; [|discriminate].
  intros Henemy.
  apply updatePlayer_effects in Hplayer. apply updateEnemy_effects in Henemy.
  eapply rtc_trans; [exact Hw1|]. eapply rtc_trans; [exact Hplayer | exact Henemy].
Qed.

(** Every event is a sequence of steps. *)
Lemma handle_effects (e : Event) (w w' : World) :
  handle e w = Returned w' -> rtc effect w w'.
Proof.
  destruct e as [c clips|k|k| |dt|n| |c old clips]; cbn [handle].
  - apply builtinLoaded_effects.
  - destruct k; cbn [keydown]; cbv zeta; try (intros [= <-]; apply keys_effect).
    + destruct (negb _) eqn:Hj; [|intros [= <-]; apply keys_effect].
      destruct (negb (isAttacking _)) eqn:Ha; [|intros [= <-]; apply keys_effect].
      apply negb_true_iff in Hj, Ha. cbn [andb].
      intros Hrun. apply performJump_effects in Hrun; [|exact Hj|exact Ha].
      eapply rtc_trans; [apply keys_effect | exact Hrun].
    + destruct (negb _) eqn:Ha; [|intros [= <-]; apply keys_effect].
      destruct (negb (isJumping _)) eqn:Hj; [|intros [= <-]; apply keys_effect].
      apply negb_true_iff in Hj, Ha. cbn [andb].
      intros Hrun. apply performAttack_effects in Hrun; [|exact Ha|intros _; exact Hj].
      eapply rtc_trans; [apply keys_effect | exact Hrun].
    + intros [= <-]. apply rtc_refl.
  - destruct k; cbn [keyup]; intros [= <-]; first [apply keys_effect | apply rtc_refl].
  - unfold click.
    destruct (negb _) eqn:Ha; [|intros [= <-]; apply rtc_refl].
    destruct (negb (isJumping _)) eqn:Hj; [|intros [= <-]; apply rtc_refl].
    apply negb_true_iff in Hj, Ha. cbn [andb].
    intros Hrun. apply performAttack_effects in Hrun; [exact Hrun|exact Ha|intros _; exact Hj].
  - apply animate_effects.
  - apply fireTimeout_effects.
  - intros [= <-]. apply rtc_once, effect_reset.
  - apply customLoaded_effects.
Qed.

(** An invariant of the steps holds in every state the program reaches. *)
Lemma reachable_invariant (P : World -> Prop) :
  P initialWorld ->
  (forall w w', effect w w' -> P w -> P w') ->
  forall w, reachable w -> P w.
Proof.
  intros Hinit Hstep w Hw. induction Hw as [|e w w' _ IH Hrun]; [exact Hinit|].
  apply handle_effects in Hrun. clear e.
  induction Hrun as [|w1 w2 w3 H12 _ IH']; [exact IH|].
  apply IH'. apply (Hstep _ _ H12 IH).
Qed.

(** ** Invariants of the running program *)

Ltac untouched :=
  match goal with
  | character : Character |- _ => destruct character; assumption
  | _ => assumption
  end.

Lemma effect_exclusive (w w' : World) :
  effect w w' ->
  isAttacking (playerState w) && isJumping (playerState w) = false ->
  isAttacking (playerState w') && isJumping (playerState w') = false.
Proof.
  intros Hstep Hw. destruct Hstep; unfold playerState in *; try untouched.
  - destruct character; [|assumption].
    cbn. rewrite (H1 eq_refl). reflexivity.
  - destruct (timer_character t); [|assumption]. reflexivity.
  - cbn. rewrite H0. reflexivity.
  - unfold ticked, playerState in *. cbn.
    destruct (isJumping (state (player w))); cbn; [|apply andb_false_r].
    rewrite andb_true_r in Hw. rewrite Hw. reflexivity.
Qed.

Lemma effect_arena (w w' : World) :
  effect w w' ->
  (forall c, positionAccepted (x (position (state (info c w))))
                              (z (position (state (info c w)))) = true) ->
  forall c, positionAccepted (x (position (state (info c w'))))
                             (z (position (state (info c w')))) = true.
Proof.
  intros Hstep Hw c. pose proof (Hw Player) as Hp. pose proof (Hw Enemy) as He.
  clear Hw. cbn [info] in Hp, He.
  destruct Hstep; try (destruct c; try destruct character; assumption).
  - destruct c, (timer_character t); assumption.
  - destruct c; [|assumption]. unfold ticked, playerState. cbn.
    match goal with |- context [if ?m && positionAccepted ?a ?b then _ else _] =>
      destruct (m && positionAccepted a b) eqn:Hacc end; [|exact Hp].
    apply andb_prop in Hacc as [_ Hacc]. exact Hacc.
  - destruct c; [assumption|]. unfold followed, enemyState. cbv zeta.
    set (rot := smoothRotate _ _ _). clearbody rot. cbn.
    match goal with |- context [if positionAccepted ?a ?b then _ else _] =>
      destruct (positionAccepted a b) eqn:Hacc end; [exact Hacc | exact He].
Qed.

Lemma effect_models (w w' : World) :
  effect w w' ->
  (forall c m, model (info c w) = Some m ->
     model_position m = position (state (info c w)) /\
     model_rotation_y m = rotation_y (state (info c w))) ->
  forall c m, model (info c w') = Some m ->
     model_position m = position (state (info c w')) /\
     model_rotation_y m = rotation_y (state (info c w')).
Proof.
  intros Hstep Hw c. pose proof (Hw Player) as Hp. pose proof (Hw Enemy) as He.
  clear Hw. cbn [info] in Hp, He.
  destruct Hstep; try (destruct c; try destruct character; assumption).
  - destruct c, (timer_character t); assumption.
  - destruct c; [|assumption]. unfold ticked. cbn. intros m' [= <-].
    destruct (Hp m H) as (Hpos & Hrot). unfold ticked. cbn. split; [|reflexivity].
    unfold playerState. rewrite Hpos.
    match goal with |- context [if ?m && positionAccepted ?a ?b then _ else _] =>
      destruct (m && positionAccepted a b) end;
      destruct (isJumping (state (player w)));
      destruct (position (state (player w))); reflexivity.
  - destruct c; [assumption|].
    unfold followed, enemyModel, enemyState in *. cbv zeta.
    set (rot := smoothRotate _ _ _). clearbody rot.
    cbn. rewrite H. cbn.
    intros m' [= <-]. destruct (He me H) as (Hpos & Hrot). cbn.
    split; [|reflexivity].
    match goal with |- context [if positionAccepted ?a ?b then _ else _] =>
      destruct (positionAccepted a b) end; [reflexivity | exact Hpos].
  - destruct c, character; try assumption; cbn; intros m' [= <-]; split; reflexivity.
Qed.

Lemma effect_tuning (w w' : World) :
  effect w w' ->
  forall c, tuning (state (info c w')) = tuning (state (info c w)).
Proof.
  intros Hstep c. destruct Hstep;
    try (destruct c; try destruct character; reflexivity).
  destruct c, (timer_character t); reflexivity.
Qed.

Lemma filter_delete_length {A : Type} (P : A -> Prop) `{forall a, Decision (P a)}
    (l : list A) (n : nat) (t : A) :
  l !! n = Some t ->
  List.length (filter P l)
  = (List.length (filter P (delete n l)) + (if decide (P t) then 1 else 0))%nat.
Proof.
  revert n. induction l as [|a l IH]; intros [|n] Hn; simplify_eq/=.
  - rewrite filter_cons. destruct (decide (P t)); simpl; lia.
  - rewrite !filter_cons. specialize (IH n Hn).
    destruct (decide (P a)); simpl; lia.
Qed.

Lemma effect_locks (w w' : World) :
  effect w w' ->
  (forall c, pending c w = if isAttacking (state (info c w)) then 1%nat else 0%nat) ->
  forall c, pending c w' = if isAttacking (state (info c w')) then 1%nat else 0%nat.
Proof.
  intros Hstep Hw c. pose proof (Hw Player) as Hp. pose proof (Hw Enemy) as He.
  destruct Hstep; try (destruct c; try destruct character; assumption).
  - (* a new attack *)
    specialize (Hw character). rewrite H0 in Hw.
    assert (Hcount : pending c
              (set_timeouts (timeouts w ++ [attackTimer character w])
                 (update_state character (set_isAttacking true) w))
            = (pending c w + if decide (character = c) then 1 else 0)%nat).
    { unfold pending. cbn [timeouts set_timeouts].
      replace (timeouts (update_state character (set_isAttacking true) w))
        with (timeouts w) by (destruct character; reflexivity).
      rewrite filter_app, length_app, filter_cons, filter_nil.
      cbn [attackTimer timer_character].
      destruct (decide (character = c)); reflexivity. }
    rewrite Hcount. destruct (decide (character = c)) as [<-|Hne].
    + rewrite Hw. destruct character; reflexivity.
    + rewrite Nat.add_0_r. destruct c, character; try congruence; assumption.
  - (* a timeout runs *)
    pose proof (filter_delete_length (fun t' => timer_character t' = c) _ _ _ H)
      as Hcount.
    fold (pending c w) in Hcount.
    assert (Hafter : pending c
              (update_state (timer_character t) (set_isAttacking false)
                 (set_timeouts (delete n (timeouts w)) w))
            = List.length (filter (fun t' => timer_character t' = c)
                             (delete n (timeouts w))))
      by (destruct (timer_character t); reflexivity).
    rewrite Hafter. specialize (Hw c). rewrite Hw in Hcount.
    destruct (decide (timer_character t = c)) as [Heq|Hne].
    + rewrite Heq. destruct (isAttacking (state (info c w))); [|lia].
      destruct c; cbn; lia.
    + rewrite Nat.add_0_r in Hcount. rewrite <- Hcount.
      destruct c, (timer_character t); try congruence; reflexivity.
Qed.

Lemma entry_set_entry (r r' : Role) (e : MapEntry) (map : AnimationMap) :
  entry r' (set_entry r e map) = if decide (r = r') then e else entry r' map.
Proof. destruct r, r'; reflexivity. Qed.

Lemma roleName_inj (r r' : Role) : roleName r = roleName r' -> r = r'.
Proof. destruct r, r'; simpl; intros Heq; congruence. Qed.

Lemma effect_bindings (w w' : World) :
  effect w w' ->
  animations (player w) <> animations (enemy w) /\ (forall c, agree c w) ->
  animations (player w') <> animations (enemy w') /\ (forall c, agree c w').
Proof.
  intros Hstep (Hrefs & Hw).
  destruct Hstep;
    try (split; [try destruct character; exact Hrefs
                | intros c0; specialize (Hw c0);
                  destruct c0; try destruct character; exact Hw]).
  - split; [destruct (timer_character t); exact Hrefs|].
    intros c0. specialize (Hw c0).
    destruct c0, (timer_character t); exact Hw.
  - (* a clip is bound *)
    split; [destruct character; exact Hrefs|]. intros c0.
    destruct (decide (character = c0)) as [<-|Hne].
    + destruct (Hw character) as (Hroles & Hkeys). split.
      * intros r'. classified. rewrite entry_set_entry.
        destruct (decide (r = r')) as [<-|Hr].
        -- rewrite lookup_insert_eq. reflexivity.
        -- rewrite lookup_insert_ne by (intros Heq; apply Hr, roleName_inj, Heq).
           apply Hroles.
      * intros k. classified. rewrite lookup_insert. destruct (decide (roleName r = k)).
        -- intros _. exists r. congruence.
        -- apply Hkeys.
    + assert (Hsame : animationsOf c0
                (set_animation character (roleName r) (clipAction m c)
                   (update_animationMap character (set_entry r (bound c)) w))
              = animationsOf c0 w).
      { unfold animationsOf, set_animation.
        destruct character, c0; try congruence; cbn;
          apply lookup_total_insert_ne; congruence. }
      assert (Hmap : animationMap (info c0
                (set_animation character (roleName r) (clipAction m c)
                   (update_animationMap character (set_entry r (bound c)) w)))
              = animationMap (info c0 w))
        by (destruct character, c0; try congruence; reflexivity).
      unfold agree. rewrite Hsame, Hmap. apply Hw.
  - (* both animation sets are reset *)
    split; [cbn; lia|].
    assert (Hempty : forall c0, animationsOf c0 (loadCustomModel w) = ∅).
    { intros []; unfold animationsOf, loadCustomModel; cbn.
      - rewrite lookup_total_insert_ne by lia. apply lookup_total_insert_eq.
      - apply lookup_total_insert_eq. }
    intros c0. unfold agree. rewrite Hempty. split.
    + intros r. rewrite lookup_empty. destruct c0, r; reflexivity.
    + intros k [a Ha]. rewrite lookup_empty in Ha. discriminate.
Qed.

Lemma attackTimeout_shape (t : Timer) (w : World) :
  exists (current : string) (calls : list PlaybackCall),
    attackTimeout t w =
      Returned
        (set_playback calls
           (update_state (timer_character t)
              (fun s => set_currentAnimation current (set_isAttacking false s)) w)).
Proof.
  unfold attackTimeout. destruct (truthy _).
  - destruct (setAnimation_shape (timer_character t) "IDLE"
                (update_state (timer_character t) (set_isAttacking false) w))
      as (cur & calls & ->).
    exists cur, calls. destruct (timer_character t); reflexivity.
  - exists (currentAnimation (state (info (timer_character t) w))), (playback w).
    destruct w as [k [[] ? ? ? ?] [[] ? ? ? ?] o ts p f], (timer_character t);
      reflexivity.
Qed.

Lemma run_reachable (events : list Event) (w w' : World) :
  reachable w -> run events w = Returned w' -> reachable w'.
Proof.
  unfold run. revert w. induction events as [|e events IH]; intros w Hw; cbn [forEach].
  - intros [= <-]. exact Hw.
  - destruct (handle e w) as [w1|] eqn:He; cbv [mbind Res_bind]; [|discriminate].
    apply IH. apply (reachable_step e w w1 Hw He).
Qed.

(** X1. The player is never attacking and jumping at once; so while the
    player attacks, a tick of [updatePlayer] changes nothing at all. *)
Theorem player_attack_excludes_jump (w : World) :
  reachable w ->
  isAttacking (playerState w) && isJumping (playerState w) = false /\
  (isAttacking (playerState w) = true ->
   forall deltaTime, updatePlayer deltaTime w = Returned w).
Proof.
  intros Hw.
  assert (Hex : isAttacking (playerState w) && isJumping (playerState w) = false).
  { revert w Hw.
    apply (reachable_invariant
             (fun w => isAttacking (playerState w) && isJumping (playerState w) = false));
      [reflexivity|].
    intros w w'. apply effect_exclusive. }
  split; [exact Hex|]. intros Hatt deltaTime.
  rewrite Hatt in Hex. cbn in Hex. unfold updatePlayer.
  rewrite Hatt, Hex. cbn. destruct (negb _); reflexivity.
Qed.

Lemma player_attack_excludes_jump_witness :
  isAttacking (playerState airborne) && isJumping (playerState airborne) = false.
Proof.
  apply (player_attack_excludes_jump airborne airborne_reachable).
Defined.

(** X2. A character has one pending timeout while it is attacking and none
    otherwise; so an attacking character has a timeout whose run ends the
    attack. *)
Theorem one_timeout_per_attack (w : World) :
  reachable w ->
  forall c : Character,
    pending c w = (if isAttacking (state (info c w)) then 1%nat else 0%nat) /\
    (isAttacking (state (info c w)) = true ->
     exists (n : nat) (w' : World),
       fireTimeout n w = Returned w' /\
       isAttacking (state (info c w')) = false /\
       pending c w' = 0%nat).
Proof.
  intros Hw.
  assert (Hlock : forall c, pending c w
                  = if isAttacking (state (info c w)) then 1%nat else 0%nat).
  { revert w Hw.
    apply (reachable_invariant
             (fun w => forall c, pending c w
                = if isAttacking (state (info c w)) then 1%nat else 0%nat)).
    - intros []; reflexivity.
    - intros w w'. apply effect_locks. }
  intros c. split; [apply Hlock|]. intros Hatt.
  pose proof (Hlock c) as Hone. rewrite Hatt in Hone. unfold pending in Hone.
  destruct (filter (fun t => timer_character t = c) (timeouts w)) as [|t rest] eqn:Hf;
    [discriminate|].
  assert (Hin : t ∈ filter (fun t => timer_character t = c) (timeouts w))
    by (rewrite Hf; apply list_elem_of_here).
  apply list_elem_of_filter in Hin as (Hc & Hin).
  apply list_elem_of_lookup in Hin as (n & Hn).
  pose proof (filter_delete_length (fun t' => timer_character t' = c) _ _ _ Hn)
    as Hcount.
  rewrite Hf in Hcount. cbn in Hcount.
  destruct (decide (timer_character t = c)); [|contradiction].
  exists n. unfold fireTimeout. rewrite Hn.
  destruct (attackTimeout_shape t (set_timeouts (delete n (timeouts w)) w))
    as (cur & calls & ->).
  eexists. split; [reflexivity|]. rewrite Hc. split.
  - destruct c; reflexivity.
  - transitivity (List.length (filter (fun t' => timer_character t' = c)
                                 (delete n (timeouts w)))).
    + destruct c; reflexivity.
    + cbn in Hone. lia.
Qed.

Lemma one_timeout_per_attack_witness :
  exists w,
    run [BuiltinLoaded Player [slash]; Keydown KeyF] initialWorld = Returned w /\
    isAttacking (playerState w) = true /\
    pending Player w = 1%nat /\
    exists n w', fireTimeout n w = Returned w' /\
                 isAttacking (playerState w') = false.
Proof.
  destruct (run [BuiltinLoaded Player [slash]; Keydown KeyF] initialWorld)
    as [w|] eqn:Hrun; [|vm_compute in Hrun; discriminate].
  exists w. split; [reflexivity|].
  assert (Hatt : isAttacking (playerState w) = true)
    by (vm_compute in Hrun; injection Hrun as <-; reflexivity).
  pose proof (run_reachable _ _ _ reachable_initial Hrun) as Hreach.
  destruct (one_timeout_per_attack w Hreach Player) as (Hcount & Hfire).
  split; [exact Hatt|]. split.
  - rewrite Hcount. cbn [info]. unfold playerState in Hatt. rewrite Hatt. reflexivity.
  - destruct (Hfire Hatt) as (n & w' & Hrun' & Hoff & _). exists n, w'. auto.
Defined.

(** X3. Both characters are always outside the tree trunk and inside the
    arena: farther than [treeRadius] from the origin, and closer than
    [mapBoundary] to both axes, whatever the elapsed times were. *)
Theorem characters_stay_in_arena (w : World) :
  reachable w ->
  forall c : Character,
    let p := position (state (info c w)) in
    sqrt (x p * x p + z p * z p) > treeRadius /\
    Rabs (x p) < mapBoundary /\ Rabs (z p) < mapBoundary.
Proof.
  intros Hw c. cbv zeta. apply positionAccepted_spec.
  revert w Hw c.
  apply (reachable_invariant
           (fun w => forall c, positionAccepted (x (position (state (info c w))))
                                 (z (position (state (info c w)))) = true)).
  - intros []; apply positionAccepted_spec; cbn; unfold treeRadius, mapBoundary;
      (split; [|split; unfold Rabs; destruct (Rcase_abs _); lra]).
    + apply Rlt_le_trans with 1; [lra|]. apply sqrt_at_least; lra.
    + apply Rlt_le_trans with 1; [lra|]. apply sqrt_at_least; lra.
  - intros w w'. apply effect_arena.
Qed.

Lemma characters_stay_in_arena_witness :
  Rabs (x (position (playerState airborne))) < mapBoundary.
Proof.
  apply (characters_stay_in_arena airborne airborne_reachable Player).
Defined.

(** X4. A loaded model is always where the state of its character says:
    same position, same heading. *)
Theorem model_follows_state (w : World) :
  reachable w ->
  forall (c : Character) (m : Model),
    model (info c w) = Some m ->
    model_position m = position (state (info c w)) /\
    model_rotation_y m = rotation_y (state (info c w)).
Proof.
  revert w.
  apply (reachable_invariant
           (fun w => forall c m, model (info c w) = Some m ->
              model_position m = position (state (info c w)) /\
              model_rotation_y m = rotation_y (state (info c w)))).
  - intros [] m; discriminate.
  - intros w w'. apply effect_models.
Qed.

Lemma model_follows_state_witness :
  exists m, playerModel airborne = Some m /\
            model_position m = position (playerState airborne).
Proof.
  eexists. split; [reflexivity|].
  apply (model_follows_state airborne airborne_reachable Player _ eq_refl).
Defined.

(** X5. What is bound agrees between the two places that record it. In
    every reachable state and for every role, the animations object of a
    character holds an action exactly when the animation map holds a clip,
    the clip is the action's and the recorded duration is the clip's; the
    object has no keys but the five role names. So the timeout of an attack
    lasts as long as the bound ATTACK clip, or a second when the clip has no
    positive duration. *)
Theorem bindings_agree (w : World) :
  reachable w ->
  forall c : Character,
    agree c w /\
    (forall a, animationsOf c w !! "ATTACK" = Some a ->
       delay (attackTimer c w)
       = (if decide (duration (action_clip a) > 0)
          then duration (action_clip a) else 1) * 1000).
Proof.
  intros Hw.
  assert (Hagree : forall c, agree c w).
  { apply (reachable_invariant
             (fun w => animations (player w) <> animations (enemy w) /\
                       forall c, agree c w)); [| |exact Hw].
    - split; [cbn; lia|]. intros c. split.
      + intros r. destruct c, r; vm_compute; reflexivity.
      + intros k [a Ha]. destruct c; vm_compute in Ha; discriminate.
    - intros w1 w2. apply effect_bindings. }
  intros c. split; [apply Hagree|]. intros a Ha.
  destruct (Hagree c) as (Hroles & _). specialize (Hroles Attack).
  cbn [roleName entry] in Hroles. rewrite Ha in Hroles.
  unfold attackTimer. cbn [delay]. rewrite Hroles. reflexivity.
Qed.

Lemma bindings_agree_witness : agree Player arena.
Proof.
  apply (proj1 (bindings_agree arena arena_reachable Player)).
Defined.

(** ** Requests for animations *)

(** X6. For each of the five role names, [setAnimation] returns, and a
    second request for the same role then changes nothing more; when the
    role is bound, it is the current animation afterwards. *)
Theorem setAnimation_settles (character : Character) (r : Role) (w : World) :
  exists w',
    setAnimation character (roleName r) w = Returned w' /\
    setAnimation character (roleName r) w' = Returned w' /\
    (is_Some (animationsOf character w !! roleName r) ->
     currentAnimation (state (info character w')) = roleName r).
Proof.
  generalize (roleName r). intros animationName.
  destruct (setAnimation_shape character animationName w) as (cur & calls & Hshape).
  eexists. split; [exact Hshape|]. revert Hshape.
  generalize (set_playback calls
                (update_state character (set_currentAnimation cur) w)).
  intros w'. clear cur calls.
  unfold setAnimation.
  destruct (animationsOf character w !! animationName) as [a|] eqn:Hbound;
    cbn [truthy negb].
  2: { intros [= <-]. rewrite Hbound. split; [reflexivity|]. intros [? [=]]. }
  destruct (String.eqb (currentAnimation (state (info character w))) animationName)
    eqn:Hcurrent.
  { intros [= <-]. rewrite Hbound, Hcurrent. split; [reflexivity|].
    intros _. apply String.eqb_eq, Hcurrent. }
  set (w1 := match mixer (info character w) with Some m => _ | None => w end).
  assert (Hw1 : animationsOf character w1 = animationsOf character w).
  { subst w1. destruct (mixer (info character w)), character; reflexivity. }
  rewrite Hw1, Hbound. cbv [mbind Res_bind member]. intros [= <-].
  match goal with |- context [update_state character _ ?W] => set (w2 := W) end.
  assert (Hw2 : animationsOf character
                  (update_state character (set_currentAnimation animationName) w2)
                = animationsOf character w).
  { rewrite <- Hw1. subst w2.
    destruct (_ || _), character; reflexivity. }
  assert (Hcur : currentAnimation
                   (state (info character
                      (update_state character (set_currentAnimation animationName) w2)))
                 = animationName) by (destruct character; reflexivity).
  rewrite Hw2, Hbound, Hcur, String.eqb_refl. cbn [truthy negb].
  split; [reflexivity | intros _; reflexivity].
Qed.

(** ** No handler raises *)

Lemma updateEnemy_stays (deltaTime : R) (w : World) :
  blocked w = false ->
  let distance :=
    THREE.length (THREE.subVectors (position (playerState w)) (position (enemyState w))) in
  distance < attackDistance (enemyState w) \/
  ~ distance < followDistance (enemyState w) ->
  exists (attacking : bool) (current : string) (cooldown : R)
         (calls : list PlaybackCall) (timers : list Timer),
    updateEnemy deltaTime w =
      Returned
        (set_timeouts timers
           (set_playback calls
              (update_state Enemy
                 (fun s => set_attackCooldown cooldown
                             (set_currentAnimation current
                                (set_isAttacking attacking s))) w))).
Proof.
  unfold blocked. cbv zeta. intros Hfree Hband. unfold updateEnemy. rewrite Hfree.
  cbv zeta.
  set (distance := THREE.length _) in *. clearbody distance.
  destruct (decide (distance < attackDistance (enemyState w))) as [Hnear|Hnear].
  - destruct (decide (attackCooldown (enemyState w) <= 0)).
    + destruct (performAttack_shape Enemy w) as (att & cur & calls & pend & ->).
      destruct w as [k p [[] ? ? ? ?] o t pb f]. records.
      destruct (decide _); eexists _, _, _, _, _; reflexivity.
    + destruct w as [k p [[] ? ? ? ?] o t pb f]. records.
      destruct (decide _); eexists _, _, _, _, _; reflexivity.
  - destruct (decide (distance < followDistance (enemyState w))); [tauto|].
    destruct (setAnimation_shape Enemy "IDLE" w) as (cur & calls & ->).
    destruct w as [k p [[] ? ? ? ?] o t pb f]. records.
    destruct (decide _); eexists _, _, _, _, _; reflexivity.
Qed.

Lemma setAnimation_returns (character : Character) (animationName : string) (w : World) :
  exists w', setAnimation character animationName w = Returned w'.
Proof.
  destruct (setAnimation_shape character animationName w) as (cur & calls & ->).
  eexists. reflexivity.
Qed.

Lemma performAttack_returns (character : Character) (w : World) :
  exists w', performAttack character w = Returned w'.
Proof.
  destruct (performAttack_shape character w) as (att & cur & calls & ts & ->).
  eexists. reflexivity.
Qed.

Lemma performJump_returns (character : Character) (w : World) :
  exists w', performJump character w = Returned w'.
Proof.
  unfold performJump. cbv zeta.
  destruct (isJumping _); [eexists; reflexivity|].
  destruct (truthy _); [apply setAnimation_returns | eexists; reflexivity].
Qed.

Lemma updatePlayer_returns (deltaTime : R) (w : World) :
  exists w', updatePlayer deltaTime w = Returned w'.
Proof.
  destruct (playerModel w) as [m|] eqn:Hmodel.
  2: { exists w. unfold updatePlayer. rewrite Hmodel. reflexivity. }
  destruct (isAttacking (playerState w) && negb (isJumping (playerState w))) eqn:Hfree.
  { exists w. unfold updatePlayer. rewrite Hmodel, Hfree. reflexivity. }
  destruct (updatePlayer_ticked deltaTime w m Hmodel Hfree) as (cur & calls & ->).
  eexists. reflexivity.
Qed.

Lemma updateEnemy_returns (deltaTime : R) (w : World) :
  exists w', updateEnemy deltaTime w = Returned w'.
Proof.
  destruct (blocked w) eqn:Hfree.
  { exists w. unfold blocked in Hfree. unfold updateEnemy. rewrite Hfree. reflexivity. }
  set (distance := THREE.length
         (THREE.subVectors (position (playerState w)) (position (enemyState w)))).
  destruct (decide (distance < attackDistance (enemyState w))) as [Hnear|Hnear].
  { destruct (updateEnemy_stays deltaTime w Hfree (or_introl Hnear))
      as (att & cur & cool & calls & ts & ->).
    eexists. reflexivity. }
  destruct (decide (distance < followDistance (enemyState w))) as [Hfollow|Hfar].
  2: { destruct (updateEnemy_stays deltaTime w Hfree (or_intror Hfar))
         as (att & cur & cool & calls & ts & ->).
       eexists. reflexivity. }
  destruct (enemyModel w) as [me|] eqn:Hme.
  2: { unfold blocked in Hfree. rewrite Hme in Hfree. discriminate. }
  destruct (updateEnemy_follows deltaTime w me Hfree Hme Hnear Hfollow)
    as (cur & calls & cool & ->).
  eexists. reflexivity.
Qed.

Lemma animate_returns (deltaTime : R) (w : World) :
  exists w', animate deltaTime w = Returned w'.
Proof.
  unfold animate. cbv zeta.
  match goal with |- context [updatePlayer deltaTime ?W] =>
    destruct (updatePlayer_returns deltaTime W) as (w1 & ->) end.
  cbv [mbind Res_bind]. apply updateEnemy_returns.
Qed.

Lemma fireTimeout_returns (n : nat) (w : World) :
  exists w', fireTimeout n w = Returned w'.
Proof.
  unfold fireTimeout, attackTimeout.
  destruct (timeouts w !! n); [|eexists; reflexivity]. cbv zeta.
  destruct (truthy _); [apply setAnimation_returns | eexists; reflexivity].
Qed.

Lemma processClip_returns (character : Character) (m : Mixer) (acc : World * bool)
    (c : Clip) :
  exists acc', processClip character (Some m) acc c = Returned acc'.
Proof.
  unfold processClip. destruct acc as [w found]. cbv zeta.
  repeat match goal with
  | |- context [if ?b then _ else _] => destruct b
  end; eexists; reflexivity.
Qed.

Lemma forEach_processClip_returns (character : Character) (m : Mixer)
    (animations : list Clip) (acc : World * bool) :
  exists acc', forEach (processClip character (Some m)) acc animations = Returned acc'.
Proof.
  revert acc. induction animations as [|c l IH]; intros acc; cbn [forEach].
  - eexists. reflexivity.
  - destruct (processClip_returns character m acc c) as (acc' & ->).
    cbv [mbind Res_bind]. apply IH.
Qed.

Lemma processModelAnimations_returns (animations : list Clip) (character : Character)
    (m : Mixer) (w : World) :
  mixer (info character w) = Some m ->
  exists w', processModelAnimations animations character w = Returned w'.
Proof.
  intros Hmixer. unfold processModelAnimations. rewrite Hmixer. cbv zeta.
  destruct (forEach_processClip_returns character m animations (w, false))
    as ([w1 found] & ->).
  cbv [mbind Res_bind]. destruct found; [|eexists; reflexivity].
  destruct (animationsOf character w1 !! "IDLE"); eexists; reflexivity.
Qed.

Lemma customLoaded_returns (character : Character) (oldModel : bool)
    (animations : list Clip) (w : World) :
  exists w', customLoaded character oldModel animations w = Returned w'.
Proof.
  unfold customLoaded. cbv zeta.
  eapply processModelAnimations_returns.
  destruct character; reflexivity.
Qed.

Lemma handle_returns (e : Event) (w : World) :
  exists w', handle e w = Returned w'.
Proof.
  destruct e as [c l|k|k| |dt|n| |c old l]; cbn [handle].
  - unfold builtinLoaded. cbv zeta. destruct (_ !! "IDLE"); eexists; reflexivity.
  - destruct k; cbn [keydown]; cbv zeta; try (eexists; reflexivity);
      (destruct (_ && _); [|eexists; reflexivity]).
    + apply performJump_returns.
    + apply performAttack_returns.
  - destruct k; eexists; reflexivity.
  - unfold click. destruct (_ && _); [apply performAttack_returns | eexists; reflexivity].
  - apply animate_returns.
  - apply fireTimeout_returns.
  - eexists. reflexivity.
  - apply customLoaded_returns.
Qed.

(** X11. No sequence of events makes a handler raise: from every state,
    whatever the keys, the loaded models and the clips handed over, each
    handler runs to its end. Every property access that would fail on
    [undefined] is guarded. *)
Theorem handlers_never_raise (events : list Event) (w : World) :
  exists w', run events w = Returned w'.
Proof.
  revert w. unfold run. induction events as [|e events IH]; intros w; cbn [forEach].
  - exists w. reflexivity.
  - destruct (handle_returns e w) as (w1 & ->). cbv [mbind Res_bind]. apply IH.
Qed.

(** ** Distances covered in one tick *)

Lemma reachable_tuning (w : World) :
  reachable w ->
  forall c, tuning (state (info c w)) = tuning (state (info c initialWorld)).
Proof.
  revert w.
  apply (reachable_invariant
           (fun w => forall c, tuning (state (info c w))
                               = tuning (state (info c initialWorld)))).
  - reflexivity.
  - intros w w' Hstep Hw c. rewrite (effect_tuning w w' Hstep). apply Hw.
Qed.

Lemma unit_step (r speed direction deltaTime : R) :
  direction * direction = 1 ->
  (- sin r * speed * direction * deltaTime) * (- sin r * speed * direction * deltaTime)
  + (- cos r * speed * direction * deltaTime) * (- cos r * speed * direction * deltaTime)
  = (speed * deltaTime) * (speed * deltaTime).
Proof.
  intros Hd. pose proof (sin2_cos2 r) as Hr. unfold Rsqr in Hr.
  transitivity ((speed * deltaTime) * (speed * deltaTime)
                * (direction * direction) * (sin r * sin r + cos r * cos r));
    [ring|]. rewrite Hd, Hr. ring.
Qed.

(** X7. In one tick the player covers, in the plane, either no distance or
    exactly speed times elapsed time, the speed being 10 with Shift held and
    5 without; the enemy covers either no distance or exactly 3 times the
    elapsed time. *)
Theorem step_lengths (deltaTime : R) (w : World) :
  reachable w ->
  (exists w', updatePlayer deltaTime w = Returned w' /\
     let dx := x (position (playerState w')) - x (position (playerState w)) in
     let dz := z (position (playerState w')) - z (position (playerState w)) in
     let speed := if key_shift (keys w) then 10 else 5 in
     (dx = 0 /\ dz = 0) \/
     dx * dx + dz * dz = (speed * deltaTime) * (speed * deltaTime)) /\
  (exists w', updateEnemy deltaTime w = Returned w' /\
     let dx := x (position (enemyState w')) - x (position (enemyState w)) in
     let dz := z (position (enemyState w')) - z (position (enemyState w)) in
     (dx = 0 /\ dz = 0) \/
     dx * dx + dz * dz = (3 * deltaTime) * (3 * deltaTime)).
Proof.
  intros Hw. pose proof (reachable_tuning w Hw) as Htune.
  pose proof (Htune Player) as Hp. pose proof (Htune Enemy) as He. clear Htune.
  injection Hp as Hpm Hpr _ _ _ _ _. injection He as Hem _ _ _ _ _ _.
  cbn in Hpm, Hpr, Hem. split.
  - destruct (updatePlayer_returns deltaTime w) as (w' & Hrun).
    exists w'. split; [exact Hrun|]. cbv zeta.
    destruct (playerModel w) as [m|] eqn:Hmodel.
    2: { unfold updatePlayer in Hrun. rewrite Hmodel in Hrun.
         injection Hrun as <-. left. split; lra. }
    destruct (isAttacking (playerState w) && negb (isJumping (playerState w))) eqn:Hfree.
    { unfold updatePlayer in Hrun. rewrite Hmodel, Hfree in Hrun.
      injection Hrun as <-. left. split; lra. }
    destruct (updatePlayer_ticked deltaTime w m Hmodel Hfree) as (cur & calls & Hrun').
    rewrite Hrun in Hrun'. injection Hrun' as ->.
    unfold ticked, playerState. cbn. unfold playerState. rewrite Hpm, Hpr.
    set (r := turned deltaTime w m). clearbody r.
    destruct (key_w (keys w) || key_s (keys w)); cbn [andb]; [|left; split; lra].
    match goal with |- context [if positionAccepted ?a ?b then _ else _] =>
      destruct (positionAccepted a b) end; [|left; split; lra].
    right.
    set (speed := if key_shift (keys w) then 10 else 5).
    set (direction := if key_w (keys w) then -1 else 1).
    assert (Hd : direction * direction = 1)
      by (subst direction; destruct (key_w (keys w)); lra).
    rewrite <- (unit_step r speed direction deltaTime Hd). ring.
  - destruct (updateEnemy_returns deltaTime w) as (w' & Hrun).
    exists w'. split; [exact Hrun|]. cbv zeta.
    destruct (blocked w) eqn:Hfree.
    { unfold blocked in Hfree. unfold updateEnemy in Hrun. rewrite Hfree in Hrun.
      injection Hrun as <-. left. split; lra. }
    set (distance := THREE.length
           (THREE.subVectors (position (playerState w)) (position (enemyState w)))).
    destruct (decide (distance < attackDistance (enemyState w))) as [Hnear|Hnear].
    { destruct (updateEnemy_stays deltaTime w Hfree (or_introl Hnear))
        as (att & cur & cool & calls & ts & Hrun').
      rewrite Hrun in Hrun'. injection Hrun' as ->. left. unfold enemyState. cbn. split; lra. }
    destruct (decide (distance < followDistance (enemyState w))) as [Hfollow|Hfar].
    2: { destruct (updateEnemy_stays deltaTime w Hfree (or_intror Hfar))
           as (att & cur & cool & calls & ts & Hrun').
         rewrite Hrun in Hrun'. injection Hrun' as ->. left. unfold enemyState. cbn. split; lra. }
    destruct (enemyModel w) as [me|] eqn:Hme;
      [|unfold blocked in Hfree; rewrite Hme in Hfree; discriminate].
    destruct (updateEnemy_follows deltaTime w me Hfree Hme Hnear Hfollow)
      as (cur & calls & cool & Hrun').
    rewrite Hrun in Hrun'. injection Hrun' as ->.
    unfold followed, enemyState. cbv zeta.
    set (rot := smoothRotate _ _ _). clearbody rot. cbn. rewrite Hem.
    match goal with |- context [if positionAccepted ?a ?b then _ else _] =>
      destruct (positionAccepted a b) end; cbn; [|left; split; lra].
    right.
    assert (Hd : (-1) * (-1) = 1) by lra.
    rewrite <- (unit_step rot 3 (-1) deltaTime Hd). ring.
Qed.

Lemma step_lengths_witness :
  exists w w',
    run [BuiltinLoaded Player []; Keydown KeyW] initialWorld = Returned w /\
    updatePlayer 1 w = Returned w' /\
    let dx := x (position (playerState w')) - x (position (playerState w)) in
    let dz := z (position (playerState w')) - z (position (playerState w)) in
    let speed := if key_shift (keys w) then 10 else 5 in
    (dx = 0 /\ dz = 0) \/
    dx * dx + dz * dz = (speed * 1) * (speed * 1).
Proof.
  destruct (run [BuiltinLoaded Player []; Keydown KeyW] initialWorld)
    as [w|] eqn:Hrun; [|vm_compute in Hrun; discriminate].
  pose proof (run_reachable _ _ _ reachable_initial Hrun) as Hreach.
  destruct (proj1 (step_lengths 1 w Hreach)) as (w' & Hstep & Hlength).
  exists w, w'. split; [reflexivity|]. split; [exact Hstep | exact Hlength].
Defined.

(** ** The enemy's policy *)

Lemma performAttack_exact (character : Character) (w : World) :
  exists (current : string) (calls : list PlaybackCall),
    performAttack character w =
      Returned
        (if truthy (animationsOf character w !! "ATTACK")
         then set_timeouts (timeouts w ++ [attackTimer character w])%list
                (set_playback calls
                   (update_state character
                      (fun s => set_currentAnimation current (set_isAttacking true s)) w))
         else w).
Proof.
  unfold performAttack.
  destruct (animationsOf character w !! "ATTACK") as [a|]; cbn [truthy negb].
  2: { exists "", []. reflexivity. }
  destruct (setAnimation_shape character "ATTACK"
              (update_state character (set_isAttacking true) w))
    as (cur & calls & ->).
  exists cur, calls. unfold attackTimer. destruct character; reflexivity.
Qed.

(** X8. The enemy moves and turns only while it follows the player: on a
    tick that is cut short, or with the player closer than [attackDistance]
    or not closer than [followDistance], its position, heading, velocity and
    model are as before, and nothing of the player changes. *)
Theorem enemy_holds_position_outside_follow_band (deltaTime : R) (w : World) :
  let distance :=
    THREE.length (THREE.subVectors (position (playerState w)) (position (enemyState w))) in
  blocked w = true \/
  distance < attackDistance (enemyState w) \/
  ~ distance < followDistance (enemyState w) ->
  exists w',
    updateEnemy deltaTime w = Returned w' /\
    position (enemyState w') = position (enemyState w) /\
    rotation_y (enemyState w') = rotation_y (enemyState w) /\
    velocity (enemyState w') = velocity (enemyState w) /\
    enemyModel w' = enemyModel w /\
    player w' = player w.
Proof.
  cbv zeta. intros Hband.
  destruct (updateEnemy_returns deltaTime w) as (w' & Hrun).
  exists w'. split; [exact Hrun|].
  destruct (blocked w) eqn:Hfree.
  { unfold blocked in Hfree. unfold updateEnemy in Hrun. rewrite Hfree in Hrun.
    injection Hrun as <-. repeat split; reflexivity. }
  destruct Hband as [Hblocked|Hband]; [discriminate|].
  destruct (updateEnemy_stays deltaTime w Hfree Hband)
    as (att & cur & cool & calls & ts & Hrun').
  rewrite Hrun in Hrun'. injection Hrun' as ->. repeat split; reflexivity.
Qed.

Lemma enemy_holds_position_outside_follow_band_witness :
  exists w',
    updateEnemy 1 striking = Returned w' /\
    position (enemyState w') = position (enemyState striking).
Proof.
  destruct (enemy_holds_position_outside_follow_band 1 striking (or_introl eq_refl))
    as (w' & Hrun & Hposition & _).
  exists w'. split; [exact Hrun | exact Hposition].
Defined.

(** X9. With the player closer than [attackDistance], on a tick that is not
    cut short: when the cooldown is zero or less, the cooldown becomes 2
    minus the elapsed time whether or not the enemy has an ATTACK action, and
    an attack with its timeout starts exactly when it has one; when the
    cooldown is positive, no attack starts and the cooldown is decremented. *)
Theorem enemy_attacks_when_ready (deltaTime : R) (w : World) :
  blocked w = false ->
  THREE.length (THREE.subVectors (position (playerState w)) (position (enemyState w)))
    < attackDistance (enemyState w) ->
  exists w',
    updateEnemy deltaTime w = Returned w' /\
    if decide (attackCooldown (enemyState w) <= 0) then
      attackCooldown (enemyState w') = 2 - deltaTime /\
      isAttacking (enemyState w') = truthy (enemyAnimations w !! "ATTACK") /\
      timeouts w' =
        (timeouts w ++
           (if truthy (enemyAnimations w !! "ATTACK") then [attackTimer Enemy w] else []))%list
    else
      attackCooldown (enemyState w') = attackCooldown (enemyState w) - deltaTime /\
      isAttacking (enemyState w') = false /\
      timeouts w' = timeouts w.
Proof.
  unfold blocked. intros Hfree Hnear. unfold updateEnemy. rewrite Hfree. cbv zeta.
  destruct (decide (_ < attackDistance (enemyState w))); [|contradiction].
  assert (Hidle : isAttacking (enemyState w) = false).
  { destruct (isAttacking (enemyState w)); [|reflexivity].
    rewrite orb_true_r in Hfree. discriminate. }
  destruct (decide (attackCooldown (enemyState w) <= 0)) as [Hready|Hwait].
  - destruct (performAttack_exact Enemy w) as (cur & calls & ->).
    unfold enemyAnimations.
    destruct (truthy (animationsOf Enemy w !! "ATTACK"));
      cbv [mbind Res_bind]; unfold enemyState; cbn;
      (destruct (decide (2 > 0)); [|lra]);
      (eexists; split; [reflexivity|]); cbn.
    + repeat split; reflexivity.
    + repeat split; [exact Hidle | symmetry; apply app_nil_r].
  - cbv [mbind Res_bind].
    destruct (decide (attackCooldown (enemyState w) > 0)); [|lra].
    eexists. split; [reflexivity|]. unfold enemyState in *. cbn.
    repeat split. exact Hidle.
Qed.

Lemma enemy_attacks_when_ready_witness :
  exists w',
    updateEnemy (1 / 10)
      (update_state Player (set_position (position (enemyState arena))) arena)
    = Returned w' /\
    attackCooldown (enemyState w') = 2 - 1 / 10 /\
    isAttacking (enemyState w') = false.
Proof.
  set (w := update_state Player (set_position (position (enemyState arena))) arena).
  assert (Hnear : THREE.length
                    (THREE.subVectors (position (playerState w)) (position (enemyState w)))
                  < attackDistance (enemyState w)).
  { subst w. worlds. replace (_ + _) with 0 by lra. rewrite sqrt_0. lra. }
  destruct (enemy_attacks_when_ready (1 / 10) w eq_refl Hnear) as (w' & Hrun & Hpolicy).
  exists w'. split; [exact Hrun|].
  destruct (decide (attackCooldown (enemyState w) <= 0)) as [_|Hno].
  - destruct Hpolicy as (Hcool & Hatt & _). split; [exact Hcool | exact Hatt].
  - exfalso. apply Hno. subst w. cbn. lra.
Defined.

(** ** Upload of a model file *)

Lemma endsWith_spec (s suffix : string) :
  endsWith s suffix = true <-> exists stem, s = stem +:+ suffix.
Proof.
  split.
  - induction s as [|c s IH]; cbn [endsWith]; intros H.
    + rewrite orb_false_r in H. apply String.eqb_eq in H. exists ""%string. exact H.
    + apply orb_true_iff in H. destruct H as [H|H].
      * apply String.eqb_eq in H. exists ""%string. exact H.
      * destruct (IH H) as (stem & ->). exists (String c stem). reflexivity.
  - intros (stem & ->). induction stem as [|c stem IH].
    + change ("" +:+ suffix) with suffix.
      destruct suffix; cbn [endsWith]; rewrite String.eqb_refl; reflexivity.
    + change (String c stem +:+ suffix) with (String c (stem +:+ suffix)).
      cbn [endsWith]. rewrite IH. apply orb_true_r.
Qed.

Lemma toLowerCase_app (s t : string) :
  toLowerCase (s +:+ t) = toLowerCase s +:+ toLowerCase t.
Proof.
  induction s as [|c s IH]; [reflexivity|].
  change (String c s +:+ t) with (String c (s +:+ t)). cbn [toLowerCase].
  rewrite IH. reflexivity.
Qed.

Lemma toLowerCase_split (s a b : string) :
  toLowerCase s = a +:+ b ->
  exists s1 s2, s = s1 +:+ s2 /\ toLowerCase s1 = a /\ toLowerCase s2 = b.
Proof.
  revert s. induction a as [|c a IH]; intros s H.
  - exists ""%string, s. repeat split. exact H.
  - destruct s as [|c' s]; [discriminate|].
    change (String c a +:+ b) with (String c (a +:+ b)) in H.
    cbn [toLowerCase] in H. injection H as Hc H.
    destruct (IH s H) as (s1 & s2 & -> & <- & <-).
    exists (String c' s1), s2. cbn [toLowerCase]. rewrite Hc. repeat split.
Qed.

(** X10. A file is accepted exactly when its name is some stem followed by
    an extension that reads [.glb] or [.gltf] once upper-case letters are
    lowered: the test looks at the end of the name only and ignores case. *)
Theorem isValidModelFile_by_extension (file : File) :
  isValidModelFile file = true <->
  exists stem ext : string,
    file_name file = stem +:+ ext /\
    (toLowerCase ext = ".glb"%string \/ toLowerCase ext = ".gltf"%string).
Proof.
  unfold isValidModelFile, validExtensions. cbn [existsb]. rewrite orb_false_r.
  rewrite orb_true_iff, !endsWith_spec. split.
  - intros [(stem & H)|(stem & H)];
      destruct (toLowerCase_split _ _ _ H) as (s1 & s2 & Hname & _ & Hext);
      exists s1, s2; auto.
  - intros (stem & ext & -> & [H|H]); [left|right];
      exists (toLowerCase stem); rewrite toLowerCase_app, H; reflexivity.
Qed.

(** ** Before any clip is bound *)

Lemma setAnimation_unbound (character : Character) (animationName : string) (w : World) :
  animationsOf character w = ∅ ->
  setAnimation character animationName w = Returned w.
Proof. unfold setAnimation. intros ->. rewrite lookup_empty. reflexivity. Qed.

Lemma performAttack_unbound (character : Character) (w : World) :
  animationsOf character w = ∅ ->
  performAttack character w = Returned w.
Proof. unfold performAttack. intros ->. rewrite lookup_empty. reflexivity. Qed.

Lemma movementAnimation_unbound (moving running : bool) (w : World) :
  playerAnimations w = ∅ ->
  movementAnimation moving running w = Returned w.
Proof.
  unfold movementAnimation. intros ->. rewrite !lookup_empty.
  destruct moving, running; reflexivity.
Qed.

Lemma updatePlayer_unbound (deltaTime : R) (w : World) (m : Model) :
  playerAnimations w = ∅ ->
  playerModel w = Some m ->
  isAttacking (playerState w) && negb (isJumping (playerState w)) = false ->
  updatePlayer deltaTime w = Returned (ticked deltaTime m w).
Proof.
  intros Hun Hmodel Hfree. unfold updatePlayer.
  rewrite Hmodel, Hfree. cbn [truthy negb].
  rewrite (rotatePlayer_spec deltaTime w m Hmodel).
  unfold ticked.
  set (r := turned deltaTime w m). clearbody r.
  unfold playerModel, playerState, jumpPlayer, movePlayer, bool_decide,
    playerModel, playerState in *.
  destruct w as [[kw ka ks kd ksp ksh kf]
                 [[[] ? [] ? ? ? ? ? j ? ? ? ? ?] an am mx md] en ob ti pb fr].
  simpl in *. subst md. destruct m as [[] ?]. clear Hfree.
  destruct j; records; cbv [decide decide_rel].
  - match goal with |- context [Rle_decision ?a 0] => destruct (Rle_decision a 0) end.
    + destruct (kw || ks) eqn:Hkeys; records;
        match goal with |- context [movementAnimation ?a ?b ?W] =>
          rewrite (movementAnimation_unbound a b W Hun) end;
        records; rewrite ?Hkeys; records;
        try (match goal with |- context [positionAccepted ?a ?b] =>
               destruct (positionAccepted a b) end; records);
        match goal with
        | |- context [if ?b then movementAnimation ?a1 ?a2 ?W else _] =>
            destruct b; [ rewrite (movementAnimation_unbound a1 a2 W Hun) | ]
        end; records; cbn [andb negb]; reflexivity.
    + destruct (kw || ks) eqn:Hkeys; records;
        try (match goal with |- context [positionAccepted ?a ?b] =>
               destruct (positionAccepted a b) end; records);
        match goal with
        | |- context [if ?b then movementAnimation ?a1 ?a2 ?W else _] =>
            destruct b; [ rewrite (movementAnimation_unbound a1 a2 W Hun) | ]
        end; records; cbn [andb negb]; reflexivity.
  - destruct (kw || ks) eqn:Hkeys; records;
      try (match goal with |- context [positionAccepted ?a ?b] =>
             destruct (positionAccepted a b) end; records);
      match goal with
      | |- context [if ?b then movementAnimation ?a1 ?a2 ?W else _] =>
          destruct b; [ rewrite (movementAnimation_unbound a1 a2 W Hun) | ]
      end; records; cbn [andb negb]; reflexivity.
Qed.

Lemma followPlayer_unbound (deltaTime : R) (direction : Vector3) (w : World) (me : Model) :
  enemyAnimations w = ∅ ->
  enemyModel w = Some me ->
  followPlayer deltaTime direction w = Returned (followed deltaTime direction me w).
Proof.
  unfold enemyModel. intros Hun Hmodel.
  unfold followPlayer, followed, enemyModel, enemyState.
  destruct w as [k p [[[] ? [] ? ? ? ? ? j ? ? ? ? ?] an am mx md] ob ti pb fr].
  simpl in *. subst md. destruct me as [[] ?]. records.
  match goal with |- context [positionAccepted ?a ?b] =>
    destruct (positionAccepted a b) end;
  match goal with |- context [setAnimation ?c ?n ?W] =>
    rewrite (setAnimation_unbound c n W Hun) end;
  reflexivity.
Qed.

Lemma ticked_staged (deltaTime : R) (m : Model) (w : World) :
  staged (ticked deltaTime m w) = staged w.
Proof. reflexivity. Qed.

Lemma followed_staged (deltaTime : R) (direction : Vector3) (me : Model) (w : World) :
  staged (followed deltaTime direction me w) = staged w.
Proof.
  unfold followed. cbv zeta. destruct (positionAccepted _ _); reflexivity.
Qed.

Lemma updatePlayer_staged (deltaTime : R) (w w' : World) :
  playerAnimations w = ∅ ->
  updatePlayer deltaTime w = Returned w' ->
  staged w' = staged w.
Proof.
  intros Hun.
  destruct (playerModel w) as [m|] eqn:Hmodel.
  2: { unfold updatePlayer. rewrite Hmodel. intros [= <-]. reflexivity. }
  destruct (isAttacking (playerState w) && negb (isJumping (playerState w))) eqn:Hfree.
  { unfold updatePlayer. rewrite Hmodel, Hfree. intros [= <-]. reflexivity. }
  rewrite (updatePlayer_unbound deltaTime w m Hun Hmodel Hfree).
  intros [= <-]. apply ticked_staged.
Qed.

Lemma updateEnemy_staged (deltaTime : R) (w w' : World) :
  enemyAnimations w = ∅ ->
  updateEnemy deltaTime w = Returned w' ->
  staged w' = staged w.
Proof.
  intros Hun. unfold updateEnemy.
  destruct (_ || _) eqn:Hfree; [intros [= <-]; reflexivity|]. cbv zeta.
  rewrite (performAttack_unbound Enemy w Hun).
  rewrite (setAnimation_unbound Enemy "IDLE" w Hun).
  destruct (enemyModel w) as [me|] eqn:Hme; [|cbn in Hfree; discriminate].
  rewrite (followPlayer_unbound deltaTime _ w me Hun Hme).
  pose proof (followed_staged deltaTime
                (THREE.subVectors (position (playerState w)) (position (enemyState w)))
                me w) as Hfollowed.
  repeat match goal with
  | |- context [decide ?P] => destruct (decide P)
  end; cbv [mbind Res_bind];
  repeat match goal with
  | |- context [decide ?P] => destruct (decide P)
  end; intros [= <-]; try reflexivity; rewrite <- Hfollowed; reflexivity.
Qed.

Lemma animate_mixers (deltaTime : R) (w : World) :
  exists updates,
    forallb isUpdate updates = true /\
    animate deltaTime w =
      updatePlayer deltaTime (set_playback (updates ++ playback w) w)
        ≫= updateEnemy deltaTime.
Proof.
  unfold animate.
  destruct w as [k [sp anp amp [mp|] mdp] [se ane ame [me|] mde] ob ti pb fr].
  - exists [update me deltaTime; update mp deltaTime]. split; reflexivity.
  - exists [update mp deltaTime]. split; reflexivity.
  - exists [update me deltaTime]. split; reflexivity.
  - exists []. split; reflexivity.
Qed.

Lemma loadCustomModel_unbound (w : World) : unbound (loadCustomModel w).
Proof.
  unfold unbound, playerAnimations, enemyAnimations, animationsOf, loadCustomModel.
  destruct w as [k [? ? ? ? ?] [? ? ? ? ?] ob ti pb fr]. records. split.
  - rewrite lookup_total_insert_ne by lia. apply lookup_total_insert_eq.
  - apply lookup_total_insert_eq.
Qed.

(** X12. While no clip is bound for either character, every event other
    than a loader callback is handled to its end, binds no clip, leaves the
    current animation of both characters as it was and starts no attack; the
    number of pending timeouts does not grow, and the only playback calls
    made are the mixers' [update]s of a frame. *)
Theorem quiet_until_bound (e : Event) (w : World) :
  unbound w ->
  loads e = false ->
  exists w',
    handle e w = Returned w' /\
    unbound w' /\
    (forall c, currentAnimation (state (info c w'))
               = currentAnimation (state (info c w))) /\
    (forall c, isAttacking (state (info c w')) = true ->
               isAttacking (state (info c w)) = true) /\
    (List.length (timeouts w') <= List.length (timeouts w))%nat /\
    exists updates,
      playback w' = (updates ++ playback w)%list /\
      forallb isUpdate updates = true.
Proof.
  intros [Hp He] Hloads.
  destruct (handle_returns e w) as (w' & Hrun). exists w'. split; [exact Hrun|].
  assert (Hstaged : forall w1 : World, staged w1 = staged w ->
            unbound w1 /\
            (forall c, currentAnimation (state (info c w1))
                       = currentAnimation (state (info c w))) /\
            (forall c, isAttacking (state (info c w1)) = true ->
                       isAttacking (state (info c w)) = true) /\
            (List.length (timeouts w1) <= List.length (timeouts w))%nat /\
            exists updates,
              playback w1 = (updates ++ playback w)%list /\
              forallb isUpdate updates = true).
  { unfold staged. intros w1 [= H1 H2 H3 H4 H5 H6 H7 H8].
    split; [split; congruence|].
    split; [intros []; assumption|].
    split; [intros []; unfold playerState, enemyState in *; cbn [info]; congruence|].
    split; [rewrite H7; lia|]. exists []. split; [exact H8 | reflexivity]. }
  destruct e as [c l|k|k| |dt|n| |c old l]; try discriminate; cbn [handle] in Hrun.
  - (* keydown *)
    destruct k; cbn [keydown] in Hrun; cbv zeta in Hrun;
      try (injection Hrun as <-; apply Hstaged; reflexivity).
    + destruct (_ && _) in Hrun; [|injection Hrun as <-; apply Hstaged; reflexivity].
      unfold performJump in Hrun. cbv zeta in Hrun.
      destruct (isJumping _) in Hrun; [injection Hrun as <-; apply Hstaged; reflexivity|].
      match type of Hrun with context [animationsOf Player ?W] =>
        change (animationsOf Player W) with (playerAnimations w) in Hrun end.
      rewrite Hp, lookup_empty in Hrun. injection Hrun as <-.
      apply Hstaged. reflexivity.
    + destruct (_ && _) in Hrun; [|injection Hrun as <-; apply Hstaged; reflexivity].
      rewrite performAttack_unbound in Hrun by exact Hp.
      injection Hrun as <-. apply Hstaged. reflexivity.
  - (* keyup *)
    destruct k; injection Hrun as <-; apply Hstaged; reflexivity.
  - (* click *)
    unfold click in Hrun.
    destruct (_ && _) in Hrun; [|injection Hrun as <-; apply Hstaged; reflexivity].
    rewrite performAttack_unbound in Hrun by exact Hp.
    injection Hrun as <-. apply Hstaged. reflexivity.
  - (* frame *)
    destruct (animate_mixers dt w) as (ups & Hups & Heq). rewrite Heq in Hrun.
    set (w0 := set_playback (ups ++ playback w) w) in Hrun.
    destruct (updatePlayer dt w0) as [w1|] eqn:Hplayer; [|discriminate].
    cbv [mbind Res_bind] in Hrun.
    assert (H0 : staged w0 =
                 (playerAnimations w, enemyAnimations w,
                  (currentAnimation (playerState w), currentAnimation (enemyState w)),
                  (isAttacking (playerState w), isAttacking (enemyState w)),
                  timeouts w, (ups ++ playback w)%list)) by reflexivity.
    pose proof (updatePlayer_staged dt w0 w1 Hp Hplayer) as H1.
    rewrite H0 in H1.
    assert (He1 : enemyAnimations w1 = ∅).
    { unfold staged in H1. injection H1. congruence. }
    pose proof (updateEnemy_staged dt w1 w' He1 Hrun) as H2.
    rewrite H1 in H2. unfold staged in H2.
    injection H2 as H21 H22 H23 H24 H25 H26 H27 H28.
    split; [split; congruence|].
    split; [intros []; assumption|].
    split; [intros []; unfold playerState, enemyState in *; cbn [info]; congruence|].
    split; [rewrite H27; lia|].
    exists ups. split; [exact H28 | exact Hups].
  - (* timeout *)
    unfold fireTimeout in Hrun.
    destruct (timeouts w !! n) as [t|] eqn:Hn;
      [|injection Hrun as <-; apply Hstaged; reflexivity].
    unfold attackTimeout in Hrun. cbv zeta in Hrun.
    rewrite setAnimation_unbound in Hrun
      by (destruct (timer_character t); [exact Hp | exact He]).
    assert (Hw' : w' = update_state (timer_character t) (set_isAttacking false)
                         (set_timeouts (delete n (timeouts w)) w))
      by (destruct (truthy _) in Hrun; congruence).
    subst w'. clear Hrun.
    split; [split; destruct (timer_character t); assumption|].
    split; [intros []; destruct (timer_character t); reflexivity|].
    split; [intros []; destruct (timer_character t); cbn; congruence|].
    split.
    + destruct (timer_character t); cbn; rewrite length_delete;
        [lia | eauto | lia | eauto].
    + exists []. split; [destruct (timer_character t); reflexivity | reflexivity].
  - (* upload *)
    injection Hrun as <-. split; [apply loadCustomModel_unbound|].
    split; [intros []; reflexivity|].
    split; [intros []; cbn; auto|].
    split; [cbn; lia|]. exists []. split; reflexivity.
Qed.

Lemma quiet_until_bound_witness :
  exists w',
    handle Click (fst (fileChosen (Some {| file_name := "Robot.GLB" |}) arena))
      = Returned w' /\
    unbound w'.
Proof.
  set (w := fst (fileChosen (Some {| file_name := "Robot.GLB" |}) arena)).
  assert (Hw : unbound w) by apply loadCustomModel_unbound.
  destruct (quiet_until_bound Click w Hw eq_refl) as (w' & Hrun & Hquiet & _).
  exists w'. split; [exact Hrun | exact Hquiet].
Defined.

(** ** The end of a jump *)

Lemma updateEnemy_player (deltaTime : R) (w : World) :
  exists w', updateEnemy deltaTime w = Returned w' /\ player w' = player w.
Proof.
  destruct (blocked w) eqn:Hfree.
  { exists w. unfold blocked in Hfree. unfold updateEnemy. rewrite Hfree.
    split; reflexivity. }
  set (distance := THREE.length
         (THREE.subVectors (position (playerState w)) (position (enemyState w)))).
  destruct (decide (distance < attackDistance (enemyState w))) as [Hnear|Hnear].
  { destruct (updateEnemy_stays deltaTime w Hfree (or_introl Hnear))
      as (att & cur & cool & calls & ts & ->).
    eexists. split; reflexivity. }
  destruct (decide (distance < followDistance (enemyState w))) as [Hfollow|Hfar].
  2: { destruct (updateEnemy_stays deltaTime w Hfree (or_intror Hfar))
         as (att & cur & cool & calls & ts & ->).
       eexists. split; reflexivity. }
  destruct (enemyModel w) as [me|] eqn:Hme.
  2: { unfold blocked in Hfree. rewrite Hme in Hfree. discriminate. }
  destruct (updateEnemy_follows deltaTime w me Hfree Hme Hnear Hfollow)
    as (cur & calls & cool & ->).
  eexists. split; reflexivity.
Qed.

Lemma animate_flight (deltaTime : R) (w : World) :
  is_Some (playerModel w) ->
  exists w',
    animate deltaTime w = Returned w' /\
    is_Some (playerModel w') /\
    flight w' = fall deltaTime (flight w).
Proof.
  intros [m Hmodel].
  destruct (animate_mixers deltaTime w) as (ups & _ & ->).
  set (w0 := set_playback (ups ++ playback w) w).
  assert (Hmodel0 : playerModel w0 = Some m) by exact Hmodel.
  destruct (isAttacking (playerState w0) && negb (isJumping (playerState w0))) eqn:Hfree.
  - assert (Hplayer : updatePlayer deltaTime w0 = Returned w0).
    { unfold updatePlayer. rewrite Hmodel0, Hfree. reflexivity. }
    rewrite Hplayer. cbv [mbind Res_bind].
    destruct (updateEnemy_player deltaTime w0) as (w' & -> & Hsame).
    exists w'. split; [reflexivity|].
    unfold flight, playerModel, playerState in *. rewrite Hsame.
    split; [eexists; exact Hmodel|].
    apply andb_true_iff in Hfree as (_ & Hground).
    cbn [player set_playback w0] in *.
    destruct (isJumping (state (player w))); [discriminate | reflexivity].
  - destruct (updatePlayer_ticked deltaTime w0 m Hmodel0 Hfree) as (cur & calls & ->).
    cbv [mbind Res_bind].
    match goal with |- context [updateEnemy deltaTime ?W] =>
      destruct (updateEnemy_player deltaTime W) as (w' & -> & Hsame) end.
    exists w'. split; [reflexivity|].
    unfold flight, playerModel, playerState. rewrite Hsame.
    split; [eexists; reflexivity|].
    subst w0. unfold ticked, fall, bool_decide, playerState.
    destruct w as [k [[[] ? [] ? ? ? ? ? j ? ? ? ? ?] an am mx md] en ob ti pb fr].
    cbn. destruct j; [|reflexivity]. cbv [decide decide_rel].
    destruct (Rle_decision _ 0); reflexivity.
Qed.

Lemma frames_flight (dts : list R) (w : World) :
  is_Some (playerModel w) ->
  exists w',
    run (map Frame dts) w = Returned w' /\
    flight w' = foldl (fun v d => fall d v) (flight w) dts.
Proof.
  revert w. induction dts as [|d rest IH]; intros w Hmodel.
  - exists w. split; reflexivity.
  - destruct (animate_flight d w Hmodel) as (w1 & Hrun & Hmodel1 & Hflight).
    destruct (IH w1 Hmodel1) as (w' & Hrest & Hflight').
    exists w'. split.
    + unfold run in *. cbn [map forEach handle]. rewrite Hrun. exact Hrest.
    + cbn [foldl]. rewrite <- Hflight. exact Hflight'.
Qed.

Lemma fall_grounded (dts : list R) (py vy : R) :
  foldl (fun v d => fall d v) (false, py, vy) dts = (false, py, vy).
Proof. induction dts as [|d rest IH]; [reflexivity | exact IH]. Qed.

Lemma fall_lands (delta : R) :
  0 < delta ->
  forall (N k k2 : nat) (py vy : R),
    (k + k2 <= N)%nat ->
    vy <= INR k * (9.8 * delta) ->
    2 * 9.8 * py + (if decide (vy > 0) then vy * vy else 0)
      <= INR k2 * (2 * 9.8 * (9.8 * delta * delta)) ->
    forall dts : list R,
      (S N <= List.length dts)%nat ->
      Forall (fun d => delta <= d) dts ->
      foldl (fun v d => fall d v) (true, py, vy) dts = (false, 0, 0).
Proof.
  intros Hdelta N.
  induction N as [|N IH]; intros k k2 py vy Hk Hvy HQ dts Hlen Hdts;
    (destruct dts as [|d rest]; [cbn in Hlen; lia|]);
    apply Forall_cons in Hdts as (Hd & Hrest);
    cbn [foldl fall]; cbv zeta;
    (destruct (decide (py + (vy - 9.8 * d) * d <= 0)) as [Hland|Hair];
       [apply fall_grounded|]).
  - exfalso. apply Hair.
    assert (k = 0%nat) by lia. assert (k2 = 0%nat) by lia. subst k k2.
    cbn [INR] in *.
    destruct (decide (vy > 0)); [lra|]. nra.
  - cbn [List.length] in Hlen.
    destruct (decide (vy > 0)) as [Hup|Hdown].
    + destruct k as [|k]; [cbn [INR] in Hvy; lra|].
      rewrite S_INR in Hvy.
      apply (IH k k2); [lia| nra | | lia | exact Hrest].
      destruct (decide (vy - 9.8 * d > 0)); nra.
    + destruct k2 as [|k2].
      { exfalso. apply Hair. cbn [INR] in HQ. nra. }
      rewrite S_INR in HQ.
      apply (IH 0%nat k2); [lia | cbn [INR]; nra | | lia | exact Hrest].
      destruct (decide (vy - 9.8 * d > 0)); [nra|].
      assert ((vy - 9.8 * d) * d <= - (9.8 * delta * delta)) by nra.
      nra.
Qed.

(** X13. Every jump lands. When frames keep coming whose elapsed time is at
    least some positive [delta], a player with a loaded model who is in the
    air is back on the ground, at height 0 with no vertical speed, after a
    number of frames that depends on the state and on [delta] only, and
    stays there over the frames that follow. *)
Theorem every_jump_lands (delta : R) (w : World) :
  0 < delta ->
  is_Some (playerModel w) ->
  isJumping (playerState w) = true ->
  exists n : nat,
    forall dts : list R,
      (n <= List.length dts)%nat ->
      Forall (fun d => delta <= d) dts ->
      exists w',
        run (map Frame dts) w = Returned w' /\
        isJumping (playerState w') = false /\
        y (position (playerState w')) = 0 /\
        y (velocity (playerState w')) = 0.
Proof.
  intros Hdelta Hmodel Hjump.
  set (py := y (position (playerState w))).
  set (vy := y (velocity (playerState w))).
  destruct (INR_unbounded (vy / (9.8 * delta))) as (k & Hk).
  destruct (INR_unbounded
              ((2 * 9.8 * py + (if decide (vy > 0) then vy * vy else 0))
               / (2 * 9.8 * (9.8 * delta * delta)))) as (k2 & Hk2).
  exists (S (k + k2)). intros dts Hlen Hdts.
  destruct (frames_flight dts w Hmodel) as (w' & Hrun & Hflight).
  exists w'. split; [exact Hrun|].
  unfold flight in Hflight. rewrite Hjump in Hflight. fold py vy in Hflight.
  rewrite (fall_lands delta Hdelta (k + k2) k k2 py vy) in Hflight;
    [injection Hflight; auto | lia | | | exact Hlen | exact Hdts].
  - apply Rlt_le in Hk. apply (Rmult_le_compat_r (9.8 * delta)) in Hk; [|lra].
    unfold Rdiv in Hk. rewrite Rmult_assoc, Rinv_l, Rmult_1_r in Hk; lra.
  - apply Rlt_le in Hk2.
    assert (Hc : 0 < 2 * 9.8 * (9.8 * delta * delta)) by nra.
    apply (Rmult_le_compat_r _ _ _ (Rlt_le _ _ Hc)) in Hk2.
    unfold Rdiv in Hk2. rewrite Rmult_assoc, Rinv_l, Rmult_1_r in Hk2; lra.
Qed.

Lemma every_jump_lands_witness :
  exists n : nat,
    forall dts : list R,
      (n <= List.length dts)%nat ->
      Forall (fun d => 1 / 60 <= d) dts ->
      exists w',
        run (map Frame dts) airborne = Returned w' /\
        isJumping (playerState w') = false /\
        y (position (playerState w')) = 0 /\
        y (velocity (playerState w')) = 0.
Proof.
  apply (every_jump_lands (1 / 60) airborne);
    [lra | eexists; reflexivity | reflexivity].
Defined.

(** ** The height of a jump *)

Lemma effect_energy (w w' : World) :
  effect w w' ->
  let P (w : World) :=
    let s := playerState w in
    jumpSpeed s = 5 /\ 0 <= y (position s) /\
    if isJumping s then energy s <= 5 * 5 else y (position s) = 0 in
  P w -> P w'.
Proof.
  cbv zeta. unfold playerState, energy. intros Hstep Hw.
  destruct Hstep; unfold playerState in *; try untouched.
  - destruct (timer_character t); assumption.
  - cbn. destruct Hw as (Hspeed & Hy & Hground). rewrite H in Hground.
    rewrite Hspeed, Hground. repeat split; lra.
  - unfold ticked, playerState, bool_decide. cbn.
    destruct Hw as (Hspeed & Hy & Hair). split; [exact Hspeed|].
    destruct (isJumping (state (player w))); cbn [andb negb]; [|split; assumption].
    cbv [decide decide_rel].
    match goal with |- context [Rle_decision ?a 0] =>
      destruct (Rle_decision a 0) as [Hland|Hup] end; cbn [negb].
    + split; lra.
    + split; [lra|]. nra.
Qed.

(** X14. The player is never below the ground and never higher than
    [jumpSpeed]² / (2 · 9.8), about 1.28, whatever the elapsed times of the
    frames are; so it stays below [jumpHeight], a value no code reads. *)
Theorem jump_height_bounded (w : World) :
  reachable w ->
  let s := playerState w in
  0 <= y (position s) <= jumpSpeed s * jumpSpeed s / (2 * 9.8) /\
  y (position s) < jumpHeight s.
Proof.
  intros Hw. cbv zeta.
  pose proof (reachable_tuning w Hw Player) as Htuning.
  unfold tuning in Htuning. cbn in Htuning.
  injection Htuning as _ _ _ Hheight Hspeed _ _.
  fold (playerState w) in Hheight, Hspeed.
  assert (Hinv : jumpSpeed (playerState w) = 5 /\ 0 <= y (position (playerState w)) /\
                 if isJumping (playerState w) then energy (playerState w) <= 5 * 5
                 else y (position (playerState w)) = 0).
  { revert w Hw Hheight Hspeed. intros w Hw _ _. revert w Hw.
    apply (reachable_invariant
             (fun w => jumpSpeed (playerState w) = 5 /\
                       0 <= y (position (playerState w)) /\
                       if isJumping (playerState w)
                       then energy (playerState w) <= 5 * 5
                       else y (position (playerState w)) = 0)).
    - cbn. repeat split; lra.
    - intros w w' Hstep. exact (effect_energy w w' Hstep). }
  destruct Hinv as (_ & Hy & Hair). rewrite Hheight, Hspeed.
  assert (Hbound : y (position (playerState w)) <= 5 * 5 / (2 * 9.8)).
  { destruct (isJumping (playerState w)); [|rewrite Hair; lra].
    unfold energy in Hair.
    pose proof (Rle_0_sqr (y (velocity (playerState w)))) as Hsq.
    unfold Rsqr in Hsq. lra. }
  split; [split; assumption | lra].
Qed.

Lemma jump_height_bounded_witness :
  y (position (playerState airborne)) < jumpHeight (playerState airborne).
Proof.
  apply (jump_height_bounded airborne airborne_reachable).
Defined.
